(** * Record types built from a function declaration (records.py)

    A shallow embedding of [records.py]: the helper functions that adjust the
    annotations of [*args] and [**kwargs], the base class [Record] with its
    equality, hash, mutation guards and representation, and the decorator
    [record] that turns a function declaration into a record type.

    Conventions of the embedding.
    - A Python exception is a value of [exn]; a computation that may raise
      returns a [result].
    - The objects stored in fields are the built-in values of [value]:
      integers, floats that hold an integer, strings, tuples and dicts.
    - The text of the class statement that [record] assembles and hands to
      [exec] is kept as a small syntax tree ([class_syntax]): the tokens
      between the parentheses of [__slots__ = (...)], the parameter list of
      [__init__] and the statements of its body.
    - Parameter names are ordinary identifiers.  Names that begin with two
      underscores are treated specially by a class statement (private-name
      mangling, clashes with attributes of the class) and are not modelled. *)

From stdpp Require Import gmap strings list pretty.
From Stdlib Require Import ZArith Ascii String.

Open Scope string_scope.
Open Scope Z_scope.

(** ** Exceptions and results *)

Inductive exn :=
| TypeError (msg : string)           (* TypeError raised with this message *)
| CallTypeError                      (* TypeError of a call whose arguments do not fit the parameters *)
| UnhashableTypeError (type : string) (* TypeError: unhashable type *)
| ValueError_duplicate_parameter (name : string) (* ValueError of inspect.Signature *)
| ValueError_parameter_order         (* ValueError of inspect.Signature *)
| AttributeError (attr : string)     (* the object has no attribute [attr] *)
| NameError (name : string)          (* the name is not bound *)
| SyntaxError.

Inductive result (A : Type) :=
| Ok (a : A)
| Raise (e : exn).
Arguments Ok {A} a.
Arguments Raise {A} e.

#[global] Instance result_ret : MRet result := fun A a => Ok a.
#[global] Instance result_bind : MBind result := fun A B f r =>
  match r with
  | Ok a => f a
  | Raise e => Raise e
  end.

Definition is_ok {A} (r : result A) : bool :=
  match r with Ok _ => true | Raise _ => false end.

(** ** Python values *)

(** [VFloat n] is the float whose value is the integer [n], for
    [|n| < 2^53]; other floats are outside the model.  An int is of a size
    that [repr] converts to digits.  A dict keeps its items in insertion
    order, and its keys are distinct. *)
#[local] Unset Elimination Schemes.
Inductive value :=
| VInt (n : Z)
| VFloat (n : Z)
| VStr (s : string)
| VTuple (items : list value)
| VDict (items : list (value * value)).
#[local] Set Elimination Schemes.

(** Induction on values, through the items of tuples and dicts. *)
Section value_ind.
Variable P : value -> Prop.
Hypothesis HInt : forall n, P (VInt n).
Hypothesis HFloat : forall n, P (VFloat n).
Hypothesis HStr : forall s, P (VStr s).
Hypothesis HTuple : forall items, Forall P items -> P (VTuple items).
Hypothesis HDict :
  forall items, Forall (fun kv => P (fst kv) /\ P (snd kv)) items -> P (VDict items).

Fixpoint value_ind (v : value) : P v :=
  match v with
  | VInt n => HInt n
  | VFloat n => HFloat n
  | VStr s => HStr s
  | VTuple items =>
      HTuple items
        ((fix all (l : list value) : Forall P l :=
            match l return Forall P l with
            | [] => List.Forall_nil P
            | x :: r => List.Forall_cons P x r (value_ind x) (all r)
            end) items)
  | VDict items =>
      HDict items
        ((fix all (l : list (value * value))
            : Forall (fun kv => P (fst kv) /\ P (snd kv)) l :=
            match l return Forall (fun kv => P (fst kv) /\ P (snd kv)) l with
            | [] => List.Forall_nil _
            | kv :: r =>
                List.Forall_cons _ kv r
                  (conj (value_ind (fst kv)) (value_ind (snd kv))) (all r)
            end) items)
  end.
End value_ind.

(** [a == b] on values. An int and a float are equal when they denote the
    same number; tuples are compared item by item, dicts by looking every
    key of the left one up in the right one. *)
Fixpoint py_eq (a b : value) : bool :=
  match a, b with
  | VInt x, VInt y | VInt x, VFloat y | VFloat x, VInt y | VFloat x, VFloat y =>
      x =? y
  | VStr s, VStr t => String.eqb s t
  | VTuple xs, VTuple ys =>
      (fix items_eq (xs ys : list value) : bool :=
         match xs, ys with
         | [], [] => true
         | x :: xs', y :: ys' => py_eq x y && items_eq xs' ys'
         | _, _ => false
         end) xs ys
  | VDict d, VDict e =>
      (List.length d =? List.length e)%nat &&
      (fix every (d : list (value * value)) : bool :=
         match d with
         | [] => true
         | (k, v) :: d' =>
             (fix find (e : list (value * value)) : bool :=
                match e with
                | [] => false
                | (k', v') :: e' => if py_eq k k' then py_eq v v' else find e'
                end) e && every d'
         end) d
  | _, _ => false
  end.

(** [a != b]: the built-in types answer the negation of [==]. *)
Definition py_ne (a b : value) : bool := negb (py_eq a b).

(** *** Hashing (CPython, 64-bit) *)

Definition _PyHASH_MODULUS : Z := 2 ^ 61 - 1.

(** Hash of an int; a float that holds an integer hashes like that int. *)
Definition long_hash (n : Z) : Z :=
  let h := Z.sgn n * (Z.abs n mod _PyHASH_MODULUS) in
  if h =? -1 then -2 else h.

Definition _PyHASH_XXPRIME_1 : Z := 11400714785074694791.
Definition _PyHASH_XXPRIME_2 : Z := 14029467366897019727.
Definition _PyHASH_XXPRIME_5 : Z := 2870177450012600261.

(** Arithmetic on [Py_uhash_t] wraps around at [2^64]. *)
Definition uhash (x : Z) : Z := x mod 2 ^ 64.
Definition _PyHASH_XXROTATE (x : Z) : Z :=
  uhash (Z.lor (Z.shiftl x 31) (Z.shiftr x 33)).
Definition to_Py_hash_t (x : Z) : Z :=
  if x <? 2 ^ 63 then x else x - 2 ^ 64.

Fixpoint tuplehash_loop (acc : Z) (lanes : list Z) : Z :=
  match lanes with
  | [] => acc
  | lane :: rest =>
      let acc := uhash (acc + uhash lane * _PyHASH_XXPRIME_2) in
      let acc := _PyHASH_XXROTATE acc in
      let acc := uhash (acc * _PyHASH_XXPRIME_1) in
      tuplehash_loop acc rest
  end.

(** Hash of a tuple from the hashes of its items, in order. *)
Definition tuplehash (lanes : list Z) : Z :=
  let acc := tuplehash_loop _PyHASH_XXPRIME_5 lanes in
  let acc :=
    uhash (acc + Z.lxor (Z.of_nat (List.length lanes))
                        (Z.lxor _PyHASH_XXPRIME_5 3527539)) in
  if acc =? 2 ^ 64 - 1 then 1546275796 else to_Py_hash_t acc.

(** [hash(v)].  The hash of a string depends on the seed of the process and
    is a parameter. *)
Fixpoint py_hash (str_hash : string -> Z) (v : value) : result Z :=
  match v with
  | VInt n | VFloat n => Ok (long_hash n)
  | VStr s => Ok (str_hash s)
  | VTuple items =>
      lanes ← (fix hashes (items : list value) : result (list Z) :=
                 match items with
                 | [] => Ok []
                 | x :: rest =>
                     h ← py_hash str_hash x;
                     hs ← hashes rest;
                     Ok (h :: hs)
                 end) items;
      Ok (tuplehash lanes)
  | VDict _ => Raise (UnhashableTypeError "dict")
  end.

(** *** Textual representation of values *)

Definition single_quote : ascii := "'"%char.
Definition double_quote : ascii := ascii_of_nat 34.
Definition backslash : ascii := "\"%char.

Fixpoint contains_char (c : ascii) (s : string) : bool :=
  match s with
  | EmptyString => false
  | String c' s' => Ascii.eqb c c' || contains_char c s'
  end.

Definition hex_digit (n : N) : ascii :=
  match String.get (N.to_nat n) "0123456789abcdef" with
  | Some c => c
  | None => "0"%char
  end.

(** One character of a string inside the quotes [q].  A character of a
    [string] is read as a code point below 256. *)
Definition repr_char (q c : ascii) : string :=
  let n := N_of_ascii c in
  if Ascii.eqb c q || Ascii.eqb c backslash then String backslash (String c EmptyString)
  else if (n =? 9)%N then "\t"
  else if (n =? 10)%N then "\n"
  else if (n =? 13)%N then "\r"
  else if (n <? 32)%N || (n =? 127)%N || ((128 <=? n)%N && (n <=? 160)%N) || (n =? 173)%N
    then "\x" ++ String (hex_digit (n / 16)) (String (hex_digit (n mod 16)) EmptyString)
  else String c EmptyString.

Fixpoint repr_chars (q : ascii) (s : string) : string :=
  match s with
  | EmptyString => EmptyString
  | String c s' => repr_char q c ++ repr_chars q s'
  end.

(** [repr] of a str: single quotes, unless the text has a single quote and
    no double quote. *)
Definition str_repr (s : string) : string :=
  let q := if contains_char single_quote s && negb (contains_char double_quote s)
           then double_quote else single_quote in
  String q (repr_chars q s ++ String q EmptyString).

(** [sep.join(parts)] *)
Definition join (sep : string) (parts : list string) : string :=
  String.concat sep parts.

(** [repr(v)] *)
Fixpoint py_repr (v : value) : string :=
  match v with
  | VInt n => pretty n
  | VFloat n => pretty n ++ ".0"
  | VStr s => str_repr s
  | VTuple items =>
      match items with
      | [] => "()"
      | [x] => "(" ++ py_repr x ++ ",)"
      | _ => "(" ++ join ", " (List.map py_repr items) ++ ")"
      end
  | VDict items =>
      "{" ++ join ", " (List.map (fun kv => py_repr (fst kv) ++ ": " ++ py_repr (snd kv)) items)
          ++ "}"
  end.

(** ** Annotations *)

(** An annotation is either a str (a deferred annotation) or an object:
    [None], a named class, a subscripted built-in such as [tuple[int]] or
    [dict[str, int]], or [typing.Unpack[...]]. *)
#[local] Unset Elimination Schemes.
Inductive Annotation :=
| AText (text : string)
| ANone
| AName (name : string)
| ASubscript (origin : string) (args : list Annotation)
| AUnpack (arg : Annotation).
#[local] Set Elimination Schemes.

(** [s.startswith(p)], [s.removeprefix(p)], [s.removesuffix(p)] *)
Definition startswith (s p : string) : bool := String.prefix p s.

Definition removeprefix (s p : string) : string :=
  if startswith s p
  then String.substring (String.length p) (String.length s - String.length p) s
  else s.

Definition endswith (s p : string) : bool :=
  (String.length p <=? String.length s)%nat
  && String.eqb (String.substring (String.length s - String.length p) (String.length p) s) p.

Definition removesuffix (s p : string) : string :=
  if endswith s p
  then String.substring 0 (String.length s - String.length p) s
  else s.

(** Convert the type annotation for *args to an appropriate one for a record. *)
Definition _make_var_positional_annotation (annotation : Annotation) : Annotation :=
  match annotation with
  | AText text => AText ("tuple[" ++ text ++ "]")
  | _ => ASubscript "tuple" [annotation]
  end.

(** Convert the type annotation for **kwargs to an appropriate one for a record. *)
Definition _make_var_keyword_annotation (annotation : Annotation) : Annotation :=
  match annotation with
  | AText text =>
      if startswith text "Unpack["
      then AText (removesuffix (removeprefix text "Unpack[") "]")
      else AText ("dict[str, " ++ text ++ "]")
  | AUnpack arg => arg
  | _ => ASubscript "dict" [AName "str"; annotation]
  end.

(** [l.append(x)] *)
Definition list_append {A} (l : list A) (x : A) : list A := (l ++ [x])%list.

(** ** Dicts keyed by names, in insertion order *)

Fixpoint dict_get {A} (key : string) (d : list (string * A)) : option A :=
  match d with
  | [] => None
  | (k, v) :: rest => if String.eqb k key then Some v else dict_get key rest
  end.

(** [d[key] = v]: an existing key keeps its place. *)
Fixpoint dict_set {A} (key : string) (v : A) (d : list (string * A)) : list (string * A) :=
  match d with
  | [] => [(key, v)]
  | (k, v') :: rest =>
      if String.eqb k key then (k, v) :: rest else (k, v') :: dict_set key v rest
  end.

(** [del d[key]], where a missing key is let pass. *)
Fixpoint dict_del {A} (key : string) (d : list (string * A)) : list (string * A) :=
  match d with
  | [] => []
  | (k, v) :: rest => if String.eqb k key then rest else (k, v) :: dict_del key rest
  end.

(** [d1 | d2] *)
Definition dict_or {A} (d1 d2 : list (string * A)) : list (string * A) :=
  fold_left (fun d kv => dict_set (fst kv) (snd kv) d) d2 d1.

Definition dict_keys {A} (d : list (string * A)) : list string := List.map fst d.

(** ** Parameters, signatures and function objects *)

Inductive Kind :=
| POSITIONAL_ONLY
| POSITIONAL_OR_KEYWORD
| VAR_POSITIONAL
| KEYWORD_ONLY
| VAR_KEYWORD.

#[global] Instance Kind_eq_dec : EqDecision Kind.
Proof. solve_decision. Defined.

(** The kinds are the values 0 to 4 of an integer enumeration. *)
Definition kind_value (k : Kind) : nat :=
  match k with
  | POSITIONAL_ONLY => 0
  | POSITIONAL_OR_KEYWORD => 1
  | VAR_POSITIONAL => 2
  | KEYWORD_ONLY => 3
  | VAR_KEYWORD => 4
  end.

(** [inspect.Parameter]; [None] stands for [Parameter.empty]. *)
Record Param := {
  name : string;
  kind : Kind;
  default : option value;
  annotation : option Annotation;
}.

(** [inspect.Signature]; [None] stands for [Signature.empty]. *)
Record Signature := {
  parameters : list Param;
  return_annotation : option Annotation;
}.

(** The function that [record] decorates. *)
Record function := {
  func__name__ : string;
  func__qualname__ : string;
  func__module__ : string;
  func__doc__ : option string;
  func_parameters : list Param;
  func_return : option Annotation;
}.

Definition is_positional (p : Param) : bool :=
  match kind p with
  | POSITIONAL_ONLY | POSITIONAL_OR_KEYWORD => true
  | _ => false
  end.

(** The parameters of kind [k], in declared order. *)
Definition of_kind (k : Kind) (params : list Param) : list Param :=
  List.filter (fun p => bool_decide (kind p = k)) params.

(** The order in which the compiler of CPython puts the annotated parameters
    into [func.__annotations__]: the positional-or-keyword ones come first,
    then the positional-only ones, [*args], the keyword-only ones and
    [**kwargs].  With a positional-only parameter this is not the declared
    order. *)
Definition annotations_order (params : list Param) : list Param :=
  (of_kind POSITIONAL_OR_KEYWORD params
   ++ of_kind POSITIONAL_ONLY params
   ++ of_kind VAR_POSITIONAL params
   ++ of_kind KEYWORD_ONLY params
   ++ of_kind VAR_KEYWORD params)%list.

(** [func.__annotations__]: the annotated parameters in the order of the
    compiler, then the return annotation. *)
Definition func__annotations__ (func : function) : list (string * Annotation) :=
  omap (fun p => pair (name p) <$> annotation p)
    (annotations_order (func_parameters func))
  ++ match func_return func with
     | Some a => [("return", a)]
     | None => []
     end.

(** [func.__defaults__]: the defaults of the positional parameters, [None]
    when there is none. *)
Definition func__defaults__ (func : function) : option (list value) :=
  match omap default (List.filter is_positional (func_parameters func)) with
  | [] => None
  | ds => Some ds
  end.

(** [func.__kwdefaults__]: the defaults of the keyword-only parameters. *)
Definition func__kwdefaults__ (func : function) : option (list (string * value)) :=
  match omap (fun p => match kind p with
                       | KEYWORD_ONLY => pair (name p) <$> default p
                       | _ => None
                       end) (func_parameters func) with
  | [] => None
  | ds => Some ds
  end.

(** [inspect.signature(func)] *)
Definition inspect_signature (func : function) : Signature :=
  {| parameters := func_parameters func; return_annotation := func_return func |}.

(** The checks that [inspect.Signature] makes on the parameters it is given:
    the kinds must not decrease and no name may occur twice.  (Its third
    check, on a parameter without default after one with a default, cannot
    fail for [record], which empties every default first.) *)
Fixpoint validate_parameters (top_kind : Kind) (seen : list string)
    (params : list Param) : result unit :=
  match params with
  | [] => Ok ()
  | param :: rest =>
      if (kind_value (kind param) <? kind_value top_kind)%nat
      then Raise ValueError_parameter_order
      else if bool_decide (name param ∈ seen)
      then Raise (ValueError_duplicate_parameter (name param))
      else validate_parameters (kind param) (name param :: seen) rest
  end.

(** [signature.replace(parameters=...)] *)
Definition Signature_replace (s : Signature) (params : list Param) : result Signature :=
  _ ← validate_parameters POSITIONAL_ONLY [] params;
  Ok {| parameters := params; return_annotation := return_annotation s |}.

(** [param.replace(default=param.empty, annotation=param.empty)] *)
Definition Parameter_replace_empty (param : Param) : Param :=
  {| name := name param; kind := kind param; default := None; annotation := None |}.

(** ** The class statement *)

(** What stands between the parentheses of [__slots__ = (...)]: quoted
    names and commas. *)
Inductive token :=
| TString (s : string)
| TComma.

(** A statement of the body of [__init__]: [pass], or
    [object.__setattr__(self, 'attr', var)]. *)
Inductive statement :=
| Pass
| ObjectSetattr (attr var : string).

Record class_syntax := {
  cs_name : string;
  cs_slots : list token;
  cs_init_signature : Signature;
  cs_init_body : list statement;
}.

(** The value of [__slots__]: a tuple of names, or a single str. *)
Inductive slots_value :=
| SlotsTuple (names : list string)
| SlotsStr (s : string).

Fixpoint comma_separated (toks : list token) : option (list string) :=
  match toks with
  | [] => Some []
  | [TString s] => Some [s]
  | TString s :: TComma :: rest => cons s <$> comma_separated rest
  | _ => None
  end.

(** The value of the parenthesised form [( toks )]: a lone string in
    parentheses is that string, anything else is a tuple. *)
Definition eval_parenthesized (toks : list token) : result slots_value :=
  match toks with
  | [TString s] => Ok (SlotsStr s)
  | _ => match comma_separated toks with
         | Some names => Ok (SlotsTuple names)
         | None => Raise SyntaxError
         end
  end.

(** [", ".join(...)] on tokens *)
Fixpoint comma_join (toks : list token) : list token :=
  match toks with
  | [] => []
  | [t] => [t]
  | t :: rest => t :: TComma :: comma_join rest
  end.

(** The function object [__init__] of a record type. *)
Record init_function := {
  init_parameters : list Param;   (* as in the class statement, [self] first *)
  init_body : list statement;
  init__annotations__ : list (string * Annotation);
  init__defaults__ : option (list value);
  init__kwdefaults__ : option (list (string * value));
}.

(** The class that the class statement creates. *)
Record class_object := {
  class_name : string;
  class_slots : slots_value;
  class_init_parameters : list Param;
  class_init_body : list statement;
}.

(** [exec(class_syntax, globals)] followed by [globals[name]] *)
Definition exec_class (cs : class_syntax) : result class_object :=
  slots ← eval_parenthesized (cs_slots cs);
  Ok {| class_name := cs_name cs;
        class_slots := slots;
        class_init_parameters := parameters (cs_init_signature cs);
        class_init_body := cs_init_body cs |}.

(** ** Record types *)

Record record_type := {
  __name__ : string;
  __qualname__ : string;
  __module__ : string;
  __doc__ : option string;
  __slots__ : slots_value;
  __annotations__ : list (string * Annotation);
  __match_args__ : list string;
  __init__ : init_function;
}.

(** The loop that builds [cls_annotations]. *)
Fixpoint cls_annotations_loop (proposed_annotations : list (string * Annotation))
    (params : list Param) (cls_annotations : list (string * Annotation))
    : list (string * Annotation) :=
  match params with
  | [] => cls_annotations
  | parameter :: rest =>
      match dict_get (name parameter) proposed_annotations with
      | None => cls_annotations_loop proposed_annotations rest cls_annotations
      | Some annotation =>
          let annotation :=
            if decide (kind parameter = VAR_POSITIONAL)
            then _make_var_positional_annotation annotation
            else if decide (kind parameter = VAR_KEYWORD)
            then _make_var_keyword_annotation annotation
            else annotation in
          cls_annotations_loop proposed_annotations rest
            (dict_set (name parameter) annotation cls_annotations)
      end
  end.

(** The loop that builds [match_args]; it ends at the first parameter that
    is variadic or keyword-only. *)
Fixpoint match_args_loop (params : list Param) (match_args : list string)
    : list string :=
  match params with
  | [] => match_args
  | parameter :: rest =>
      match kind parameter with
      | VAR_POSITIONAL | KEYWORD_ONLY | VAR_KEYWORD => match_args
      | _ => match_args_loop rest (list_append match_args (name parameter))
      end
  end.

(** [annotation in {inspect.Signature.empty, None}] *)
Definition empty_or_None (annotation : option Annotation) : bool :=
  match annotation with
  | None | Some ANone => true
  | Some _ => false
  end.

(** The parameter [self] that [record] puts in front of the others. *)
Definition self_parameter : Param :=
  {| name := "self"; kind := POSITIONAL_ONLY; default := None; annotation := None |}.

(** Create a record type. *)
Definition record (func : function) : result record_type :=
  let name_ := func__name__ func in
  let func_signature := inspect_signature func in
  if negb (empty_or_None (return_annotation func_signature))
  then Raise (TypeError "return type annotation can only be 'None' or unset")
  else
      init_signature ←
        Signature_replace func_signature
          (self_parameter :: (Parameter_replace_empty <$> parameters func_signature));
      let names := name <$> parameters func_signature in
      let parameters_ := (fun n => ObjectSetattr n n) <$> names in
      let init_body := match parameters_ with [] => [Pass] | _ => parameters_ end in
      let slots :=
        if (List.length (parameters func_signature) =? 1)%nat
        then match names with
             | n :: _ => [TString n; TComma]
             | [] => []
             end
        else comma_join (TString <$> names) in
      let class_syntax_ :=
        {| cs_name := name_; cs_slots := slots;
           cs_init_signature := init_signature; cs_init_body := init_body |} in
      cls ← exec_class class_syntax_;
      let proposed_annotations := dict_del "return" (func__annotations__ func) in
      let cls_annotations :=
        cls_annotations_loop proposed_annotations (parameters func_signature) [] in
      let match_args := match_args_loop (parameters func_signature) [] in
      Ok {| __name__ := class_name cls;
            __qualname__ := func__qualname__ func;
            __module__ := func__module__ func;
            __doc__ := func__doc__ func;
            __slots__ := class_slots cls;
            __annotations__ := cls_annotations;
            __match_args__ := match_args;
            __init__ :=
              {| init_parameters := class_init_parameters cls;
                 init_body := class_init_body cls;
                 init__annotations__ :=
                   dict_or (func__annotations__ func) [("return", ANone)];
                 init__defaults__ := func__defaults__ func;
                 init__kwdefaults__ := func__kwdefaults__ func |} |}.

(** ** Instances *)

(** An instance of a record type: its type and the values held by its
    slots.  A slot that was never written has no entry. *)
Record instance := {
  type_of : record_type;
  slot_values : gmap string value;
}.

(** Iterating over the value of [__slots__]: the names of a tuple, the
    characters of a str. *)
Fixpoint characters (s : string) : list string :=
  match s with
  | EmptyString => []
  | String c s' => String c EmptyString :: characters s'
  end.

Definition iter_slots (slots : slots_value) : list string :=
  match slots with
  | SlotsTuple names => names
  | SlotsStr s => characters s
  end.

(** The slots that the class reserves in its instances: one per name of a
    tuple; a str names a single slot. *)
Definition slot_descriptors (slots : slots_value) : list string :=
  match slots with
  | SlotsTuple names => names
  | SlotsStr s => [s]
  end.

(** [getattr(self, attr)] for the name of a field *)
Definition getattr (self : instance) (attr : string) : result value :=
  match slot_values self !! attr with
  | Some v => Ok v
  | None => Raise (AttributeError attr)
  end.

(** [object.__setattr__(self, attr, v)]: the write path of the initializer. *)
Definition object_setattr (self : instance) (attr : string) (v : value) : result instance :=
  if bool_decide (attr ∈ slot_descriptors (__slots__ (type_of self)))
  then Ok {| type_of := type_of self; slot_values := <[attr := v]> (slot_values self) |}
  else Raise (AttributeError attr).

(** ** The base class [Record] *)

(** Any object, as the right operand of [==]: the value of [__slots__] of
    its class, if the class has one, and its attributes. *)
Record object := {
  ob_class_slots : option slots_value;
  ob_attrs : gmap string value;
}.

Definition as_object (i : instance) : object :=
  {| ob_class_slots := Some (__slots__ (type_of i)); ob_attrs := slot_values i |}.

(** An element of the sets of attributes that [__eq__] compares: a name, or
    the fresh [object()] that stands in when a class has no [__slots__]. *)
Inductive slot_entry :=
| SlotName (s : string)
| FreshObject.

#[global] Instance slot_entry_eq_dec : EqDecision slot_entry.
Proof. solve_decision. Defined.

#[global] Instance SlotName_inj : Inj (=) (=) SlotName.
Proof. intros s t H. by injection H. Qed.

#[global] Instance slot_entry_countable : Countable slot_entry.
Proof.
  refine (inj_countable'
            (fun e => match e with SlotName s => Some s | FreshObject => None end)
            (fun o => match o with Some s => SlotName s | None => FreshObject end) _).
  intros []; reflexivity.
Defined.

(** The result of [__eq__]. *)
Inductive eq_result :=
| PyTrue
| PyFalse
| NotImplemented.

(** The elements of [frozenset(l)].  A [for] loop over a frozenset visits
    them in the order of the runtime's hash table, which the functions below
    take as [iter]: [iter l] is the order in which the frozenset built from the
    sequence [l] is visited. *)
Definition frozenset {A} `{Countable A} (l : list A) : gset A := list_to_set l.

(** The iteration visits every element of the sequence once. *)
Definition iteration_order (iter : list string -> list string) : Prop :=
  forall l, NoDup (iter l) /\ forall x, x ∈ iter l <-> x ∈ l.

Module Record.

(** The [for] loop of [__eq__], with its [else]. *)
Fixpoint eq_loop (self : instance) (other : object) (attrs : list string)
    : result eq_result :=
  match attrs with
  | [] => Ok PyTrue
  | attr :: rest =>
      match ob_attrs other !! attr with
      | None => Ok NotImplemented
      | Some theirs =>
          mine ← getattr self attr;
          if py_ne mine theirs then Ok PyFalse else eq_loop self other rest
      end
  end.

(** Check for equality.

    The comparison is done per-attribute to allow for duck typing (i.e.,
    nominal typing is not used as a shortcut for comparing). *)
Definition __eq__ (iter : list string -> list string) (self : instance)
    (other : object) : result eq_result :=
  let other_attrs : gset slot_entry :=
    frozenset match ob_class_slots other with
              | Some slots => SlotName <$> iter_slots slots
              | None => [FreshObject]
              end in
  let self_slots := iter_slots (__slots__ (type_of self)) in
  let self_attrs : gset slot_entry := frozenset (SlotName <$> self_slots) in
  if bool_decide (self_attrs ≠ other_attrs)
  then Ok NotImplemented
  else eq_loop self other (iter self_slots).

(** [tuple(getattr(self, name) for name in names)] *)
Fixpoint field_values (self : instance) (names : list string) : result (list value) :=
  match names with
  | [] => Ok []
  | name :: rest =>
      v ← getattr self name;
      vs ← field_values self rest;
      Ok (v :: vs)
  end.

Definition __hash__ (str_hash : string -> Z) (self : instance) : result Z :=
  items ← field_values self (iter_slots (__slots__ (type_of self)));
  py_hash str_hash (VTuple items).

(** [__setattr__] and [__delattr__] return the exception they raise and
    the instance as it is afterwards. *)
Definition __setattr__ (self : instance) (attr : string) (v : value)
    : result unit * instance :=
  (Raise (TypeError (__name__ (type_of self)
                     ++ " object does not support attribute assignment")),
   self).

Definition __delattr__ (self : instance) (attr : string) : result unit * instance :=
  (Raise (TypeError (__name__ (type_of self)
                     ++ " object does not support attribute deletion")),
   self).

(** The loop of [__repr__] over the parameters of the bound [__init__]. *)
Fixpoint repr_loop (self : instance) (params : list Param) (args : list string)
    : result (list string) :=
  match params with
  | [] => Ok args
  | parameter :: rest =>
      v ← getattr self (name parameter);
      let param_repr := py_repr v in
      let args :=
        match kind parameter with
        | POSITIONAL_ONLY => list_append args param_repr
        | POSITIONAL_OR_KEYWORD | KEYWORD_ONLY =>
            list_append args (name parameter ++ "=" ++ param_repr)
        | VAR_POSITIONAL => list_append args ("*" ++ param_repr)
        | VAR_KEYWORD => list_append args ("**" ++ param_repr)
        end in
      repr_loop self rest args
  end.

Definition __repr__ (self : instance) : result string :=
  (* Using the bound [__init__] means [inspect] takes care of [self]. *)
  let init_signature := tail (init_parameters (__init__ (type_of self))) in
  args ← repr_loop self init_signature [];
  Ok (__name__ (type_of self) ++ "(" ++ join ", " args ++ ")").

End Record.

(** ** Calling the type *)

Definition takes_keyword (p : Param) : bool :=
  match kind p with
  | POSITIONAL_OR_KEYWORD | KEYWORD_ONLY => true
  | _ => false
  end.

Definition find_kind (k : Kind) (params : list Param) : option Param :=
  List.find (fun p => bool_decide (kind p = k)) params.

(** The keyword arguments of a call, one after the other: a keyword that
    names a positional-or-keyword or keyword-only parameter fills it, once;
    any other keyword goes to the dict of [**kwargs], when there is one. *)
Fixpoint bind_keywords (params : list Param) (kwargs : list (string * value))
    (locals : gmap string value) (kwdict : list (value * value))
    : result (gmap string value * list (value * value)) :=
  match kwargs with
  | [] => Ok (locals, kwdict)
  | (k, v) :: rest =>
      if existsb (fun p => takes_keyword p && String.eqb (name p) k) params
      then match locals !! k with
           | Some _ => Raise CallTypeError
           | None => bind_keywords params rest (<[k := v]> locals) kwdict
           end
      else match find_kind VAR_KEYWORD params with
           | None => Raise CallTypeError
           | Some _ =>
               if existsb (fun kv => py_eq (fst kv) (VStr k)) kwdict
               then Raise CallTypeError
               else bind_keywords params rest locals (kwdict ++ [(VStr k, v)])%list
           end
  end.

(** The parameters left without argument take their default, if any. *)
Fixpoint bind_defaults (params : list (Param * option value))
    (locals : gmap string value) : result (gmap string value) :=
  match params with
  | [] => Ok locals
  | (p, d) :: rest =>
      match locals !! name p, d with
      | Some _, _ => bind_defaults rest locals
      | None, Some v => bind_defaults rest (<[name p := v]> locals)
      | None, None => Raise CallTypeError
      end
  end.

(** Binding the arguments of a call to the parameters [params] of a bound
    method ([self] is already taken).  [defaults] belongs to the last
    positional parameters of the function, [self] included. *)
Definition bind_arguments (params : list Param) (defaults : option (list value))
    (kwdefaults : option (list (string * value)))
    (args : list value) (kwargs : list (string * value))
    : result (gmap string value) :=
  let positional := List.filter is_positional params in
  let argcount := List.length positional in
  let locals : gmap string value := list_to_map (zip (name <$> positional) args) in
  let extra := drop argcount args in
  locals ← match find_kind VAR_POSITIONAL params with
           | Some p => Ok (<[name p := VTuple extra]> locals)
           | None => match extra with
                     | [] => Ok locals
                     | _ => Raise CallTypeError
                     end
           end;
  bound ← bind_keywords params kwargs locals [];
  let locals := match find_kind VAR_KEYWORD params with
                | Some p => <[name p := VDict (snd bound)]> (fst bound)
                | None => fst bound
                end in
  let defaults := match defaults with Some ds => ds | None => [] end in
  let kwdefaults := match kwdefaults with Some ds => ds | None => [] end in
  let ndefaults := List.length defaults in
  let positional_defaults :=
    (replicate (argcount - ndefaults) None
     ++ (Some <$> drop (ndefaults - argcount) defaults))%list in
  locals ← bind_defaults (zip positional positional_defaults) locals;
  let keyword_only := List.filter (fun p => bool_decide (kind p = KEYWORD_ONLY)) params in
  bind_defaults
    ((fun p => (p, dict_get (name p) kwdefaults)) <$> keyword_only) locals.

(** One statement of [__init__].  The name [object] in it is the built-in
    class, unless a parameter is called [object] or the record type itself
    is called [object].  In the first case the argument bound to [object]
    receives the call: the values of this development are instances of int,
    float, str, tuple and dict, whose bound [__setattr__] refuses the three
    arguments.  (An argument that is itself a class would let the call go
    through; [value] has no classes, and nothing is stated about such
    calls.)  In the second case the class statement binds the name in the
    globals of [__init__], and the call reaches [Record.__setattr__]. *)
Definition exec_statement (locals : gmap string value) (self : instance)
    (stmt : statement) : result instance :=
  match stmt with
  | Pass => Ok self
  | ObjectSetattr attr var =>
      match locals !! "object" with
      | Some _ => Raise CallTypeError
      | None =>
          match locals !! var with
          | None => Raise (NameError var)
          | Some v =>
              if String.eqb (__name__ (type_of self)) "object"
              then _ ← fst (Record.__setattr__ self attr v); Ok self
              else object_setattr self attr v
          end
      end
  end.

Fixpoint exec_body (locals : gmap string value) (self : instance)
    (body : list statement) : result instance :=
  match body with
  | [] => Ok self
  | stmt :: rest =>
      self ← exec_statement locals self stmt;
      exec_body locals self rest
  end.

(** Calling the type [cls] with positional and keyword arguments: a new
    instance with empty slots, on which [__init__] runs. *)
Definition type_call (cls : record_type) (args : list value)
    (kwargs : list (string * value)) : result instance :=
  let self := {| type_of := cls; slot_values := ∅ |} in
  let init := __init__ cls in
  locals ← bind_arguments (tail (init_parameters init))
              (init__defaults__ init) (init__kwdefaults__ init) args kwargs;
  exec_body locals self (init_body init).

(** The statements [self.attr = v] and [del self.attr] on an instance of a
    record type call the methods of [Record]: the class statement puts only
    [__slots__] and [__init__] in the class. *)
Definition assign_attribute (self : instance) (attr : string) (v : value)
    : result unit * instance :=
  Record.__setattr__ self attr v.

Definition delete_attribute (self : instance) (attr : string)
    : result unit * instance :=
  Record.__delattr__ self attr.

(** ** Notions used to state the properties *)

(** The field names of an instance, in the order of its type. *)
Definition fields (i : instance) : list string :=
  iter_slots (__slots__ (type_of i)).

Definition field_set (i : instance) : gset string := list_to_set (fields i).

(** An instance holds a value in each of its fields, as every instance does
    whose [__init__] has run to its end. *)
Definition constructed (i : instance) : bool :=
  forallb (fun f => bool_decide (is_Some (slot_values i !! f))) (fields i).

(** The two sides hold a value under the name [f], and the values compare
    equal ([same_value]) or unequal ([other_value]). *)
Definition same_value (a : instance) (o : object) (f : string) : Prop :=
  exists x y,
    slot_values a !! f = Some x /\ ob_attrs o !! f = Some y /\ py_ne x y = false.

Definition other_value (a : instance) (o : object) (f : string) : Prop :=
  exists x y,
    slot_values a !! f = Some x /\ ob_attrs o !! f = Some y /\ py_ne x y = true.

(** The items of two tuples are equal one by one. *)
Fixpoint items_eq (xs ys : list value) : bool :=
  match xs, ys with
  | [], [] => true
  | x :: xs', y :: ys' => py_eq x y && items_eq xs' ys'
  | _, _ => false
  end.

(** The hashes of the items of a tuple. *)
Fixpoint hash_items (str_hash : string -> Z) (items : list value) : result (list Z) :=
  match items with
  | [] => Ok []
  | x :: rest =>
      h ← py_hash str_hash x;
      hs ← hash_items str_hash rest;
      Ok (h :: hs)
  end.

(** A function as a [def] statement can declare it: the kinds of the
    parameters come in order, with at most one [*args] and one [**kwargs],
    and the names are distinct identifiers (so none is the keyword
    [return]). *)
Fixpoint kinds_in_order (top_kind : Kind) (params : list Param) : bool :=
  match params with
  | [] => true
  | p :: rest =>
      (kind_value top_kind <=? kind_value (kind p))%nat && kinds_in_order (kind p) rest
  end.

Definition count_kind (k : Kind) (params : list Param) : nat :=
  List.length (List.filter (fun p => bool_decide (kind p = k)) params).

Definition well_formed_def (func : function) : bool :=
  let params := func_parameters func in
  kinds_in_order POSITIONAL_ONLY params
  && (count_kind VAR_POSITIONAL params <=? 1)%nat
  && (count_kind VAR_KEYWORD params <=? 1)%nat
  && bool_decide (NoDup (name <$> params))
  && bool_decide ("return" ∉ name <$> params).

(** How one field is rendered in the representation of an instance, as the
    specification words it. *)
Definition rendered_field (p : Param) (v : value) : string :=
  match kind p with
  | POSITIONAL_ONLY => py_repr v
  | POSITIONAL_OR_KEYWORD | KEYWORD_ONLY => name p ++ "=" ++ py_repr v
  | VAR_POSITIONAL => "*" ++ py_repr v
  | VAR_KEYWORD => "**" ++ py_repr v
  end.

(** The effective annotation of a variadic parameter, as the specification
    words it: a tuple of [T] for [*args: T]; for [**kwargs: T] a dict from
    str to [T], unless [T] is an unpacking, which gives what it unpacks. *)
Inductive var_positional_shape : Annotation -> Annotation -> Prop :=
| vp_text t :
    var_positional_shape (AText t) (AText ("tuple[" ++ t ++ "]"))
| vp_object a :
    (forall t, a <> AText t) ->
    var_positional_shape a (ASubscript "tuple" [a]).

Inductive var_keyword_shape : Annotation -> Annotation -> Prop :=
| vk_unpack_text t :
    var_keyword_shape (AText ("Unpack[" ++ t ++ "]")) (AText t)
| vk_text t :
    startswith t "Unpack[" = false ->
    var_keyword_shape (AText t) (AText ("dict[str, " ++ t ++ "]"))
| vk_unpack a :
    var_keyword_shape (AUnpack a) a
| vk_object a :
    (forall t, a <> AText t) -> (forall b, a <> AUnpack b) ->
    var_keyword_shape a (ASubscript "dict" [AName "str"; a]).

(** The annotation of a field of the record type for a parameter annotated
    [a]. *)
Definition field_annotation (k : Kind) (a : Annotation) : Annotation :=
  match k with
  | VAR_POSITIONAL => _make_var_positional_annotation a
  | VAR_KEYWORD => _make_var_keyword_annotation a
  | _ => a
  end.

(** The entries that the annotated parameters contribute to a dict of
    annotations, in declared order, each annotation passed through [g]. *)
Definition entries (g : Kind -> Annotation -> Annotation) (params : list Param)
    : list (string * Annotation) :=
  omap (fun p => (fun a => (name p, g (kind p) a)) <$> annotation p) params.

(** ** The declarations of the test suite *)

Definition make_function (name_ : string) (doc : option string)
    (params : list Param) (ret : option Annotation) : function :=
  {| func__name__ := name_; func__qualname__ := name_;
     func__module__ := "test_records"; func__doc__ := doc;
     func_parameters := params; func_return := ret |}.

Definition AllParameterTypes : function :=
  make_function "AllParameterTypes"
    (Some "An example with all the types of possible parameters.")
    [ {| name := "pos"; kind := POSITIONAL_ONLY; default := None;
         annotation := Some (AName "float") |};
      {| name := "pos_kw"; kind := POSITIONAL_OR_KEYWORD; default := None;
         annotation := Some (AName "int") |};
      {| name := "args"; kind := VAR_POSITIONAL; default := None;
         annotation := Some (AName "int") |};
      {| name := "kw"; kind := KEYWORD_ONLY; default := None;
         annotation := Some (AName "str") |};
      {| name := "kwargs"; kind := VAR_KEYWORD; default := None;
         annotation := Some (AName "int") |} ]
    None.

Definition NoParameters : function :=
  make_function "NoParameters" (Some "An example with no parameters.") [] None.

Definition SingleParameter : function :=
  make_function "SingleParameter" (Some "An example with a single parameter.")
    [ {| name := "only_one"; kind := POSITIONAL_OR_KEYWORD; default := None;
         annotation := Some (AName "float") |} ]
    None.

Definition plain (name_ : string) : Param :=
  {| name := name_; kind := POSITIONAL_OR_KEYWORD; default := None; annotation := None |}.

Definition Point2D : function :=
  make_function "Point2D" (Some "A simple 2D point.")
    [ {| name := "x"; kind := POSITIONAL_OR_KEYWORD; default := None;
         annotation := Some (AName "float") |};
      {| name := "y"; kind := POSITIONAL_OR_KEYWORD; default := None;
         annotation := Some (AName "float") |} ]
    None.

(** The same two fields, declared the other way round. *)
Definition Point2D_yx : function :=
  make_function "Point2D_yx" None [plain "y"; plain "x"] None.

(** A declaration with a return annotation other than [None]. *)
Definition bad_return_annotation : function :=
  make_function "bad_return_annotation" None [] (Some (AName "int")).

(** A declaration whose parameter is called [self]. *)
Definition takes_self : function :=
  make_function "takes_self" None [plain "self"] None.

(** A declaration with textual annotations. *)
Definition text_annotations : function :=
  make_function "Example" (Some "An example.")
    [ {| name := "x"; kind := POSITIONAL_OR_KEYWORD; default := None;
         annotation := Some (AText "int") |};
      {| name := "args"; kind := VAR_POSITIONAL; default := None;
         annotation := Some (AText "int") |};
      {| name := "kwargs"; kind := VAR_KEYWORD; default := None;
         annotation := Some (AText "Unpack[TypedDict]") |} ]
    (Some ANone).

(** An object that is no record instance: its class has the slots [x] and
    [y], as the class [HasSlots] of the tests, and only [y] is set. *)
Definition HasSlots_y_only : object :=
  {| ob_class_slots := Some (SlotsTuple ["x"; "y"]);
     ob_attrs := {[ "y" := VFloat 4 ]} |}.

(** ** Notions used for the calls of a record type *)

(** The class statement rewrites, inside the class, every identifier that
    begins with two underscores (and does not end with two): the parameter
    [__x] of [__init__] becomes [_Name__x], while the text ['__x'] given to
    [object.__setattr__] stays.  The calls of a record type are described
    for declarations without such a parameter. *)
Definition unmangled (func : function) : bool :=
  forallb (fun p => negb (startswith (name p) "__")) (func_parameters func).

(** The names that a step of the binding has filled stay filled, and only
    names of parameters are filled. *)
Definition grows (names : list string) (l l' : gmap string value) : Prop :=
  (forall k, is_Some (l !! k) -> is_Some (l' !! k))
  /\ (forall k, is_Some (l' !! k) -> is_Some (l !! k) \/ k ∈ names).

(** The statements of [__init__] for the field names [ns]: one
    [object.__setattr__(self, 'n', n)] per name. *)
Definition setattr_statements (ns : list string) : list statement :=
  (fun n => ObjectSetattr n n) <$> ns.

(** The parameters of the bound [__init__] of the record type made from
    [func]: those of [func], with defaults and annotations emptied. *)
Definition bound_parameters (func : function) : list Param :=
  Parameter_replace_empty <$> func_parameters func.

(** A declaration with a field called [object]. *)
Definition takes_object : function :=
  make_function "Wrapper" None [plain "object"] None.

(** A declaration that is itself called [object]. *)
Definition named_object : function :=
  make_function "object" None [plain "x"] None.

(** A declaration [f(a: int, /, b: str)], whose annotations the compiler
    lists as [b], [a]. *)
Definition positional_only_first : function :=
  make_function "f" None
    [ {| name := "a"; kind := POSITIONAL_ONLY; default := None;
         annotation := Some (AName "int") |};
      {| name := "b"; kind := POSITIONAL_OR_KEYWORD; default := None;
         annotation := Some (AName "str") |} ]
    None.

(** The declaration [Defaults(a=1, /, b=2, *, c=3)] of the tests. *)
Definition Defaults : function :=
  make_function "Defaults" None
    [ {| name := "a"; kind := POSITIONAL_ONLY; default := Some (VInt 1);
         annotation := None |};
      {| name := "b"; kind := POSITIONAL_OR_KEYWORD; default := Some (VInt 2);
         annotation := None |};
      {| name := "c"; kind := KEYWORD_ONLY; default := Some (VInt 3);
         annotation := None |} ]
    None.

(** An object whose class has no [__slots__], such as an int. *)
Definition no_slots_object : object :=
  {| ob_class_slots := None; ob_attrs := ∅ |}.

(** An instance of the class [HasSlots] of the tests with both slots set. *)
Definition HasSlots_2_3 : object :=
  {| ob_class_slots := Some (SlotsTuple ["x"; "y"]);
     ob_attrs := {[ "x" := VFloat 2; "y" := VFloat 3 ]} |}.

(** A declaration with a field called [self] after another field. *)
Definition Node_with_self : function :=
  make_function "Node" None [plain "value"; plain "self"] None.

(** The keyword [k] of a call names a parameter that takes keywords. *)
Definition names_a_parameter (params : list Param) (k : string) : bool :=
  existsb (fun p => takes_keyword p && String.eqb (name p) k) params.

(** The keyword arguments of a call that name no parameter, in the order of
    the call. *)
Definition excess_keywords (params : list Param) (kwargs : list (string * value))
    : list (value * value) :=
  (fun kv => (VStr (fst kv), snd kv))
    <$> List.filter (fun kv => negb (names_a_parameter params (fst kv))) kwargs.

(** * Properties *)

(** ** Strings *)

Lemma substring_all s : String.substring 0 (String.length s) s = s.
Proof. induction s as [|c s IH]; simpl; [reflexivity | by rewrite IH]. Qed.

Lemma substring_0_app s t :
  String.substring 0 (String.length s) (s ++ t) = s.
Proof.
  induction s as [|c s IH]; simpl.
  - by destruct t.
  - by rewrite IH.
Qed.

Lemma substring_skip_app s t :
  String.substring (String.length s) (String.length t) (s ++ t) = t.
Proof. induction s as [|c s IH]; simpl; [apply substring_all | exact IH]. Qed.

Lemma length_app s t :
  String.length (s ++ t) = (String.length s + String.length t)%nat.
Proof. induction s as [|c s IH]; simpl; [reflexivity | by rewrite IH]. Qed.

Lemma startswith_app p t : startswith (p ++ t) p = true.
Proof.
  unfold startswith. induction p as [|c p IH]; simpl.
  - by destruct t.
  - by destruct (ascii_dec c c).
Qed.

Lemma removeprefix_app p t : removeprefix (p ++ t) p = t.
Proof.
  unfold removeprefix. rewrite startswith_app, length_app.
  replace (String.length p + String.length t - String.length p)%nat
    with (String.length t) by lia.
  apply substring_skip_app.
Qed.

Lemma removesuffix_app t p : removesuffix (t ++ p) p = t.
Proof.
  unfold removesuffix, endswith. rewrite length_app.
  replace (String.length t + String.length p - String.length p)%nat
    with (String.length t) by lia.
  rewrite substring_skip_app, String.eqb_refl, substring_0_app.
  replace (String.length p <=? String.length t + String.length p)%nat with true; [done|].
  symmetry. apply Nat.leb_le. lia.
Qed.

Lemma unpack_text t :
  _make_var_keyword_annotation (AText ("Unpack[" ++ t ++ "]")) = AText t.
Proof.
  unfold _make_var_keyword_annotation.
  rewrite startswith_app, removeprefix_app, removesuffix_app. reflexivity.
Qed.

(** ** The text of the class statement *)

Lemma comma_separated_cons s rest :
  comma_separated (TString s :: TComma :: rest) = cons s <$> comma_separated rest.
Proof. reflexivity. Qed.

Lemma comma_join_cons (t t' : token) rest :
  comma_join (t :: t' :: rest) = t :: TComma :: comma_join (t' :: rest).
Proof. reflexivity. Qed.

Lemma comma_separated_join names :
  names <> [] -> comma_separated (comma_join (TString <$> names)) = Some names.
Proof.
  induction names as [|n [|n' rest] IH]; intros Hne; [done | done |].
  rewrite !fmap_cons, comma_join_cons, comma_separated_cons.
  rewrite <- fmap_cons, IH; done.
Qed.

Lemma eval_slots (params : list Param) :
  eval_parenthesized
    (if (List.length params =? 1)%nat
     then match name <$> params with
          | n :: _ => [TString n; TComma]
          | [] => []
          end
     else comma_join (TString <$> (name <$> params)))
  = Ok (SlotsTuple (name <$> params)).
Proof.
  destruct params as [|p [|p' rest]]; [reflexivity | reflexivity |].
  cbn [List.length Nat.eqb].
  unfold eval_parenthesized.
  rewrite comma_separated_join by done.
  rewrite !fmap_cons, comma_join_cons. reflexivity.
Qed.

(** ** The checks of [inspect.Signature] *)

Lemma validate_parameters_ok top seen params :
  kinds_in_order top params = true ->
  NoDup (name <$> params) ->
  (forall n, n ∈ name <$> params -> n ∉ seen) ->
  validate_parameters top seen params = Ok ().
Proof.
  revert top seen. induction params as [|p rest IH]; intros top seen Hk Hnd Hseen; [done|].
  cbn [kinds_in_order] in Hk. apply andb_true_iff in Hk as [Hle Hk].
  rewrite fmap_cons in Hnd, Hseen. apply NoDup_cons in Hnd as [Hnotin Hnd].
  cbn [validate_parameters].
  replace (kind_value (kind p) <? kind_value top)%nat with false
    by (symmetry; apply Nat.ltb_ge; by apply Nat.leb_le).
  rewrite bool_decide_eq_false_2 by (apply Hseen; left).
  apply IH; [done | done |].
  intros n Hn. rewrite elem_of_cons. intros [-> | Hin]; [done|].
  eapply Hseen; [right; exact Hn | done].
Qed.

Lemma validate_parameters_inv top seen params :
  validate_parameters top seen params = Ok () ->
  NoDup (name <$> params) /\ (forall n, n ∈ name <$> params -> n ∉ seen).
Proof.
  revert top seen. induction params as [|p rest IH]; intros top seen H.
  - split; [constructor | intros n Hn; inversion Hn].
  - cbn [validate_parameters] in H.
    destruct (kind_value (kind p) <? kind_value top)%nat; [done|].
    case_bool_decide as Hp; [done|].
    apply IH in H as [Hnd Hseen]. rewrite fmap_cons. split.
    + apply NoDup_cons. split; [|done]. intros Hin. apply (Hseen _ Hin). left.
    + intros n [-> | Hin]%elem_of_cons; [done|].
      intros Hs. apply (Hseen _ Hin). by right.
Qed.

Lemma validate_parameters_raises top seen params e :
  validate_parameters top seen params = Raise e ->
  e = ValueError_parameter_order \/ exists n, e = ValueError_duplicate_parameter n.
Proof.
  revert top seen. induction params as [|p rest IH]; intros top seen H; [done|].
  cbn [validate_parameters] in H.
  destruct (kind_value (kind p) <? kind_value top)%nat; [left; by injection H|].
  case_bool_decide; [right; eexists; by injection H|]. by eapply IH.
Qed.

Lemma kinds_in_order_replace top (params : list Param) :
  kinds_in_order top (Parameter_replace_empty <$> params) = kinds_in_order top params.
Proof.
  revert top. induction params as [|p rest IH]; intros top; [done|].
  cbn. by rewrite IH.
Qed.

Lemma names_replace (params : list Param) :
  name <$> (Parameter_replace_empty <$> params) = name <$> params.
Proof. rewrite <- list_fmap_compose. by apply list_fmap_ext. Qed.

(** ** What [record] returns *)

Lemma record_Ok_inv func cls :
  record func = Ok cls ->
  empty_or_None (func_return func) = true
  /\ validate_parameters POSITIONAL_ONLY []
       (self_parameter :: (Parameter_replace_empty <$> func_parameters func)) = Ok ()
  /\ __name__ cls = func__name__ func
  /\ __qualname__ cls = func__qualname__ func
  /\ __module__ cls = func__module__ func
  /\ __doc__ cls = func__doc__ func
  /\ __slots__ cls = SlotsTuple (name <$> func_parameters func)
  /\ __annotations__ cls =
       cls_annotations_loop (dict_del "return" (func__annotations__ func))
         (func_parameters func) []
  /\ __match_args__ cls = match_args_loop (func_parameters func) []
  /\ init_parameters (__init__ cls) =
       self_parameter :: (Parameter_replace_empty <$> func_parameters func)
  /\ init_body (__init__ cls) =
       match func_parameters func with
       | [] => [Pass]
       | _ => (fun p => ObjectSetattr (name p) (name p)) <$> func_parameters func
       end
  /\ init__annotations__ (__init__ cls) =
       dict_or (func__annotations__ func) [("return", ANone)]
  /\ init__defaults__ (__init__ cls) = func__defaults__ func
  /\ init__kwdefaults__ (__init__ cls) = func__kwdefaults__ func.
Proof.
  unfold record. cbn [inspect_signature return_annotation parameters].
  destruct (empty_or_None (func_return func)); [|done].
  cbn [negb]. unfold Signature_replace. fold self_parameter.
  destruct (validate_parameters _ _ _) as [[]|e] eqn:Hv; [|done].
  cbn [mbind result_bind]. unfold exec_class.
  cbn [cs_slots cs_name cs_init_signature cs_init_body parameters].
  rewrite eval_slots. cbn [mbind result_bind].
  intros [= <-]. cbn.
  repeat split; try done.
  destruct (func_parameters func) as [|p rest]; [done|].
  rewrite <- list_fmap_compose. done.
Qed.

Lemma record_accepts func :
  empty_or_None (func_return func) = true ->
  validate_parameters POSITIONAL_ONLY []
    (self_parameter :: (Parameter_replace_empty <$> func_parameters func)) = Ok () ->
  exists cls, record func = Ok cls.
Proof.
  intros Hret Hv. unfold record. cbn [inspect_signature return_annotation parameters].
  rewrite Hret. cbn [negb]. unfold Signature_replace. fold self_parameter.
  rewrite Hv. cbn [mbind result_bind]. unfold exec_class.
  cbn [cs_slots cs_name cs_init_signature cs_init_body parameters].
  rewrite eval_slots. cbn [mbind result_bind]. eauto.
Qed.

Lemma record_raises func e :
  record func = Raise e ->
  (empty_or_None (func_return func) = false
   /\ e = TypeError "return type annotation can only be 'None' or unset")
  \/ (empty_or_None (func_return func) = true
      /\ validate_parameters POSITIONAL_ONLY []
           (self_parameter :: (Parameter_replace_empty <$> func_parameters func)) = Raise e).
Proof.
  unfold record. cbn [inspect_signature return_annotation parameters].
  destruct (empty_or_None (func_return func)); cbn [negb];
    [|intros [= <-]; by left].
  unfold Signature_replace.
  destruct (validate_parameters _ _ _) as [[]|e'] eqn:Hv; cbn [mbind result_bind].
  - unfold exec_class. cbn [cs_slots cs_name cs_init_signature cs_init_body parameters].
    rewrite eval_slots. done.
  - intros [= ->]. by right.
Qed.

Lemma empty_or_None_false r :
  empty_or_None r = false <-> exists a, r = Some a /\ a <> ANone.
Proof.
  destruct r as [[]|]; cbn; split; try done; try (intros _; eexists; split; [reflexivity | discriminate]).
  - by intros (a & [= <-] & Ha).
  - by intros (a & [=] & _).
Qed.

Lemma well_formed_def_spec func :
  well_formed_def func = true ->
  kinds_in_order POSITIONAL_ONLY (func_parameters func) = true
  /\ NoDup (name <$> func_parameters func)
  /\ "return" ∉ name <$> func_parameters func.
Proof.
  unfold well_formed_def. rewrite !andb_true_iff, !bool_decide_eq_true. tauto.
Qed.

Lemma accepted_names func cls :
  record func = Ok cls ->
  NoDup (name <$> func_parameters func) /\ "self" ∉ name <$> func_parameters func.
Proof.
  intros H. pose proof (record_Ok_inv _ _ H) as (_ & Hv & _).
  apply validate_parameters_inv in Hv as [Hnd _].
  rewrite fmap_cons, names_replace in Hnd. apply NoDup_cons in Hnd. tauto.
Qed.

(** ** The check of the return annotation *)

(** The check of the return annotation.  [record] raises its [TypeError]
    exactly when the function has a return annotation other than [None].  A
    well-formed declaration that passes the check is accepted when none of
    its parameters is called [self] (and none has a name beginning with two
    underscores, which this development leaves out). *)
Theorem return_annotation_gate (func : function) :
  (record func = Raise (TypeError "return type annotation can only be 'None' or unset")
   <-> exists a, func_return func = Some a /\ a <> ANone)
  /\ (well_formed_def func = true ->
      func_return func = None \/ func_return func = Some ANone ->
      (forall p, p ∈ func_parameters func ->
         name p <> "self" /\ startswith (name p) "__" = false) ->
      exists cls, record func = Ok cls).
Proof.
  split.
  - rewrite <- empty_or_None_false. split.
    + intros [[H _] | [_ H]]%record_raises; [done|].
      apply validate_parameters_raises in H as [H | [n H]]; discriminate H.
    + intros H. unfold record. cbn [inspect_signature return_annotation].
      by rewrite H.
  - intros Hwf Hret Hnames. apply well_formed_def_spec in Hwf as (Hk & Hnd & _).
    apply record_accepts.
    + by destruct Hret as [-> | ->].
    + apply validate_parameters_ok.
      * cbn [kinds_in_order self_parameter kind kind_value Nat.leb andb].
        by rewrite kinds_in_order_replace.
      * rewrite fmap_cons, names_replace. apply NoDup_cons. split; [|done].
        intros (p & Hp & Hin)%list_elem_of_fmap. by destruct (Hnames p Hin).
      * intros n _ Hn. inversion Hn.
Qed.

Lemma AllParameterTypes_is_accepted :
  exists cls, record AllParameterTypes = Ok cls.
Proof.
  apply (proj2 (return_annotation_gate AllParameterTypes)).
  - reflexivity.
  - left. reflexivity.
  - intros p Hp. cbn in Hp. repeat (apply elem_of_cons in Hp as [-> | Hp]); [..|inversion Hp];
      (split; [discriminate | reflexivity]).
Defined.

(** Claim C7.  The check of the return annotation is meant to be the only
    gate: a declaration without return annotation, or with [-> None], is to
    be accepted whatever its parameters.  The code misses a case.  It puts
    its own parameter [self] in front of the parameters of the function, and
    for a function whose parameter is called [self] the rebuilt signature
    has that name twice: [inspect.Signature] raises [ValueError], and no
    record type is made. *)
Theorem self_parameter_is_rejected :
  well_formed_def takes_self = true
  /\ func_return takes_self = None
  /\ record takes_self = Raise (ValueError_duplicate_parameter "self")
  /\ ~ exists cls, record takes_self = Ok cls.
Proof. repeat split. intros [cls H]. discriminate H. Qed.

(** ** The slots *)

(** Claim C2.  For every declaration that [record] accepts, [__slots__] of
    the record type is the tuple of the parameter names in declared order.
    With no parameter the tuple is empty and calling the type without
    arguments gives an instance; with a single parameter it has one entry. *)
Theorem slots_are_parameter_names (func : function) (cls : record_type) :
  record func = Ok cls ->
  __slots__ cls = SlotsTuple (name <$> func_parameters func)
  /\ iter_slots (__slots__ cls) = name <$> func_parameters func
  /\ (func_parameters func = [] ->
      iter_slots (__slots__ cls) = []
      /\ type_call cls [] [] = Ok {| type_of := cls; slot_values := ∅ |})
  /\ (forall p, func_parameters func = [p] ->
      List.length (iter_slots (__slots__ cls)) = 1%nat).
Proof.
  intros H. pose proof (record_Ok_inv _ _ H)
    as (_ & _ & _ & _ & _ & _ & Hslots & _ & _ & Hparams & Hbody & _ & Hdef & Hkw).
  rewrite Hslots. split; [done|]. split; [done|]. split.
  - intros Hnil. rewrite Hnil in *. split; [done|].
    unfold type_call. rewrite Hparams, Hbody, Hdef, Hkw. reflexivity.
  - by intros p ->.
Qed.

Lemma slots_are_parameter_names_witness :
  exists cls, record SingleParameter = Ok cls
              /\ iter_slots (__slots__ cls) = ["only_one"].
Proof.
  eexists. split; [vm_compute; reflexivity|].
  exact (proj1 (proj2 (slots_are_parameter_names SingleParameter _ eq_refl))).
Defined.

(** ** The match arguments *)

Lemma match_args_loop_run params acc :
  exists run rest,
    params = (run ++ rest)%list
    /\ Forall (fun p => kind p = POSITIONAL_ONLY \/ kind p = POSITIONAL_OR_KEYWORD) run
    /\ match rest with
       | [] => True
       | p :: _ => kind p = VAR_POSITIONAL \/ kind p = KEYWORD_ONLY \/ kind p = VAR_KEYWORD
       end
    /\ match_args_loop params acc = (acc ++ (name <$> run))%list.
Proof.
  revert acc. induction params as [|p rest IH]; intros acc.
  - exists [], []. cbn. rewrite app_nil_r. auto.
  - cbn [match_args_loop].
    destruct (kind p) eqn:Hk;
      try (exists [], (p :: rest); rewrite Hk; cbn; rewrite app_nil_r; by auto 7).
    all: destruct (IH (list_append acc (name p))) as (run & rest' & -> & Hrun & Hrest & ->).
    all: exists (p :: run), rest'; unfold list_append; rewrite <- app_assoc.
    all: repeat split; auto.
Qed.

(** Claim C6.  [__match_args__] of the record type holds the names of the
    leading parameters that are positional-only or positional-or-keyword: the
    parameters split into this run and a rest that is empty or begins with a
    variadic or keyword-only parameter.  For the parameters
    [pos, /, pos_kw, *args, kw, **kwargs] it is [("pos", "pos_kw")]. *)
Theorem match_args_is_leading_run (func : function) (cls : record_type) :
  record func = Ok cls ->
  (exists run rest,
     func_parameters func = (run ++ rest)%list
     /\ Forall (fun p => kind p = POSITIONAL_ONLY \/ kind p = POSITIONAL_OR_KEYWORD) run
     /\ match rest with
        | [] => True
        | p :: _ => kind p = VAR_POSITIONAL \/ kind p = KEYWORD_ONLY \/ kind p = VAR_KEYWORD
        end
     /\ __match_args__ cls = name <$> run)
  /\ (exists cls', record AllParameterTypes = Ok cls'
                   /\ __match_args__ cls' = ["pos"; "pos_kw"]).
Proof.
  intros H. pose proof (record_Ok_inv _ _ H)
    as (_ & _ & _ & _ & _ & _ & _ & _ & Hmatch & _).
  split.
  - destruct (match_args_loop_run (func_parameters func) [])
      as (run & rest & Hp & Hrun & Hrest & Hloop).
    exists run, rest. by rewrite Hmatch, Hloop.
  - eexists. split; vm_compute; reflexivity.
Qed.

Lemma match_args_is_leading_run_witness :
  exists cls,
    record SingleParameter = Ok cls
    /\ exists run rest,
         func_parameters SingleParameter = (run ++ rest)%list
         /\ Forall (fun p => kind p = POSITIONAL_ONLY \/ kind p = POSITIONAL_OR_KEYWORD) run
         /\ match rest with
            | [] => True
            | p :: _ =>
                kind p = VAR_POSITIONAL \/ kind p = KEYWORD_ONLY \/ kind p = VAR_KEYWORD
            end
         /\ __match_args__ cls = name <$> run.
Proof.
  eexists. split; [vm_compute; reflexivity|].
  exact (proj1 (match_args_is_leading_run SingleParameter _ eq_refl)).
Defined.

(** ** The annotations *)

Lemma dict_set_fresh {A} key (v : A) d :
  key ∉ dict_keys d -> dict_set key v d = (d ++ [(key, v)])%list.
Proof.
  induction d as [|[k v'] d IH]; intros Hk; [done|].
  cbn [dict_set]. unfold dict_keys in Hk. cbn in Hk. apply not_elem_of_cons in Hk as [Hne Hk].
  destruct (String.eqb_spec k key) as [->|_]; [done|].
  cbn. f_equal. by apply IH.
Qed.

Lemma dict_set_app_absent {A} key (v : A) d e :
  key ∉ dict_keys d -> dict_set key v (d ++ e) = (d ++ dict_set key v e)%list.
Proof.
  induction d as [|[k v'] d IH]; intros Hk; [done|].
  unfold dict_keys in Hk. cbn in Hk. apply not_elem_of_cons in Hk as [Hne Hk].
  cbn. destruct (String.eqb_spec k key) as [->|_]; [done|]. f_equal. by apply IH.
Qed.

Lemma dict_del_absent {A} key (d : list (string * A)) :
  key ∉ dict_keys d -> dict_del key d = d.
Proof.
  induction d as [|[k v'] d IH]; intros Hk; [done|].
  cbn [dict_del]. unfold dict_keys in Hk. cbn in Hk. apply not_elem_of_cons in Hk as [Hne Hk].
  destruct (String.eqb_spec k key) as [->|_]; [done|].
  f_equal. by apply IH.
Qed.

Lemma dict_del_last {A} key (v : A) d :
  key ∉ dict_keys d -> dict_del key (d ++ [(key, v)]) = d.
Proof.
  induction d as [|[k v'] d IH]; intros Hk.
  - cbn. by rewrite String.eqb_refl.
  - unfold dict_keys in Hk. cbn in Hk. apply not_elem_of_cons in Hk as [Hne Hk].
    cbn. destruct (String.eqb_spec k key) as [->|_]; [done|].
    f_equal. by apply IH.
Qed.

Lemma dict_get_app_absent {A} key (d e : list (string * A)) :
  key ∉ dict_keys d -> dict_get key (d ++ e) = dict_get key e.
Proof.
  induction d as [|[k v'] d IH]; intros Hk; [done|].
  unfold dict_keys in Hk. cbn in Hk. apply not_elem_of_cons in Hk as [Hne Hk].
  cbn. destruct (String.eqb_spec k key) as [->|_]; [done|]. by apply IH.
Qed.

Lemma dict_get_absent {A} key (d : list (string * A)) :
  key ∉ dict_keys d -> dict_get key d = None.
Proof.
  intros H. rewrite <- (app_nil_r d). by rewrite dict_get_app_absent.
Qed.

Lemma entries_keys g params n :
  n ∈ dict_keys (entries g params) -> n ∈ name <$> params.
Proof.
  induction params as [|p rest IH]; [done|].
  unfold entries, dict_keys. cbn. destruct (annotation p); cbn.
  - intros [->|H]%elem_of_cons; [left | right; by apply IH].
  - intros H. right. by apply IH.
Qed.

Lemma dict_get_entries g params p :
  NoDup (name <$> params) -> p ∈ params ->
  dict_get (name p) (entries g params) = g (kind p) <$> annotation p.
Proof.
  induction params as [|q rest IH]; intros Hnd Hin; [inversion Hin|].
  rewrite fmap_cons in Hnd. apply NoDup_cons in Hnd as [Hq Hnd].
  apply elem_of_cons in Hin as [<- | Hin].
  - unfold entries. cbn. destruct (annotation p) eqn:Ha; cbn.
    + by rewrite String.eqb_refl.
    + apply dict_get_absent. intros H. apply Hq. by apply (entries_keys g).
  - assert (name q <> name p) as Hne.
    { intros Heq. apply Hq. rewrite Heq. by apply list_elem_of_fmap_2. }
    unfold entries. cbn. destruct (annotation q); cbn.
    + destruct (String.eqb_spec (name q) (name p)); [done|]. by apply IH.
    + by apply IH.
Qed.

Lemma of_kind_split (params : list Param) :
  params ≡ₚ annotations_order params.
Proof.
  unfold annotations_order, of_kind. induction params as [|p rest IH]; [done|].
  cbn [List.filter]. destruct (kind p);
    repeat first [rewrite bool_decide_eq_true_2 by done
                 | rewrite bool_decide_eq_false_2 by done];
    cbn [app].
  - rewrite <- Permutation_middle. by constructor.
  - by constructor.
  - rewrite <- !Permutation_middle. by constructor.
  - rewrite <- !Permutation_middle. by constructor.
  - rewrite <- !Permutation_middle. by constructor.
Qed.

Lemma annotations_order_names (params : list Param) :
  name <$> annotations_order params ≡ₚ name <$> params.
Proof. by rewrite <- of_kind_split. Qed.

Lemma func__annotations___eq func :
  func__annotations__ func =
  (entries (fun _ a => a) (annotations_order (func_parameters func))
   ++ match func_return func with Some a => [("return", a)] | None => [] end)%list.
Proof. reflexivity. Qed.

Lemma proposed_annotations_eq func :
  "return" ∉ name <$> func_parameters func ->
  dict_del "return" (func__annotations__ func)
  = entries (fun _ a => a) (annotations_order (func_parameters func)).
Proof.
  intros Hr. rewrite func__annotations___eq.
  assert ("return" ∉ dict_keys (entries (fun _ a => a)
                                  (annotations_order (func_parameters func)))) as Hk.
  { intros H. apply Hr. rewrite <- annotations_order_names.
    by apply (entries_keys (fun _ a => a)). }
  destruct (func_return func).
  - by apply dict_del_last.
  - rewrite app_nil_r. by apply dict_del_absent.
Qed.

Lemma field_annotation_eq p a :
  (if decide (kind p = VAR_POSITIONAL) then _make_var_positional_annotation a
   else if decide (kind p = VAR_KEYWORD) then _make_var_keyword_annotation a
   else a) = field_annotation (kind p) a.
Proof. by destruct (kind p). Qed.

Lemma cls_annotations_loop_entries proposed params acc :
  NoDup (name <$> params) ->
  (forall p, p ∈ params -> dict_get (name p) proposed = annotation p) ->
  (forall p, p ∈ params -> name p ∉ dict_keys acc) ->
  cls_annotations_loop proposed params acc = (acc ++ entries field_annotation params)%list.
Proof.
  revert acc. induction params as [|p rest IH]; intros acc Hnd Hget Hacc.
  - by rewrite app_nil_r.
  - rewrite fmap_cons in Hnd. apply NoDup_cons in Hnd as [Hp Hnd].
    cbn [cls_annotations_loop]. rewrite (Hget p) by left.
    unfold entries. cbn [omap list_omap]. fold (entries field_annotation rest).
    destruct (annotation p) as [a|]; cbn [fmap option_fmap option_map].
    + rewrite field_annotation_eq, dict_set_fresh by (apply Hacc; left).
      rewrite IH; [by rewrite <- app_assoc | done | |].
      * intros q Hq. apply Hget. by right.
      * intros q Hq. unfold dict_keys. rewrite map_app. cbn.
        rewrite elem_of_app, list_elem_of_singleton. intros [H | H].
        -- by apply (Hacc q); [right|].
        -- apply Hp. rewrite <- H. by apply list_elem_of_fmap_2.
    + apply IH; [done | |]; intros q Hq; [apply Hget | apply Hacc]; by right.
Qed.

Lemma class_annotations func cls :
  well_formed_def func = true -> record func = Ok cls ->
  __annotations__ cls = entries field_annotation (func_parameters func).
Proof.
  intros Hwf H. apply well_formed_def_spec in Hwf as (_ & Hnd & Hret).
  pose proof (record_Ok_inv _ _ H) as (_ & _ & _ & _ & _ & _ & _ & Hann & _).
  rewrite Hann, proposed_annotations_eq by done.
  rewrite cls_annotations_loop_entries; [done | done | | intros p _ Hin; inversion Hin].
  intros p Hp. rewrite (dict_get_entries (fun _ a => a)).
  - by destruct (annotation p).
  - by rewrite annotations_order_names.
  - by rewrite <- of_kind_split.
Qed.

Lemma dict_get_app {A} key (d e : list (string * A)) :
  dict_get key (d ++ e)
  = match dict_get key d with Some v => Some v | None => dict_get key e end.
Proof.
  induction d as [|[k v] d IH]; [done|].
  cbn. by destruct (String.eqb k key).
Qed.

(** The annotations of [__init__]: those of the function, where the entry
    [return], if any, has made room for [return: None] at the end. *)
Lemma init_annotations func cls :
  well_formed_def func = true -> record func = Ok cls ->
  init__annotations__ (__init__ cls)
  = (dict_del "return" (func__annotations__ func) ++ [("return", ANone)])%list.
Proof.
  intros Hwf H. apply well_formed_def_spec in Hwf as (_ & Hnd & Hret).
  pose proof (record_Ok_inv _ _ H)
    as (Hgate & _ & _ & _ & _ & _ & _ & _ & _ & _ & _ & Hinit & _).
  rewrite Hinit, proposed_annotations_eq, func__annotations___eq by done.
  unfold dict_or. cbn [fold_left fst snd].
  assert ("return" ∉ dict_keys (entries (fun _ a => a)
                                  (annotations_order (func_parameters func)))) as Hk.
  { intros Hk. apply Hret. rewrite <- annotations_order_names.
    by apply (entries_keys (fun _ a => a)). }
  destruct (func_return func) as [[]|]; try discriminate Hgate.
  - rewrite dict_set_app_absent by done. reflexivity.
  - rewrite app_nil_r. by apply dict_set_fresh.
Qed.

Lemma var_positional_shape_make a b :
  var_positional_shape a b -> _make_var_positional_annotation a = b.
Proof. intros [t | a' Hn]; [done|]. destruct a'; try done. by destruct (Hn text). Qed.

Lemma var_keyword_shape_make a b :
  var_keyword_shape a b -> _make_var_keyword_annotation a = b.
Proof.
  intros [t | t Hs | a' | a' Hn Hu].
  - apply unpack_text.
  - cbn. by rewrite Hs.
  - done.
  - destruct a'; try done; [by destruct (Hn text) | by destruct (Hu a')].
Qed.

(** Claim C4.  In the annotations of the record type, the entry of a
    parameter [*args: T] is [tuple[T]], built on the text when [T] is a str
    (["int"] gives ["tuple[int]"]); the entry of a parameter [**kwargs: T] is
    [dict[str, T]], except that [Unpack[X]], as an object or as the text
    ["Unpack[X]"], gives [X]. *)
Theorem variadic_annotations (func : function) (cls : record_type) (p : Param)
    (a : Annotation) :
  well_formed_def func = true -> record func = Ok cls ->
  p ∈ func_parameters func -> annotation p = Some a ->
  (kind p = VAR_POSITIONAL -> forall b, var_positional_shape a b ->
     dict_get (name p) (__annotations__ cls) = Some b)
  /\ (kind p = VAR_KEYWORD -> forall b, var_keyword_shape a b ->
     dict_get (name p) (__annotations__ cls) = Some b)
  /\ _make_var_positional_annotation (AText "int") = AText "tuple[int]".
Proof.
  intros Hwf H Hp Ha. rewrite (class_annotations _ _ Hwf H).
  apply well_formed_def_spec in Hwf as (_ & Hnd & _).
  rewrite (dict_get_entries field_annotation) by done. rewrite Ha. cbn [fmap option_fmap option_map].
  split; [|split; [|reflexivity]]; intros -> b Hb; cbn [field_annotation]; f_equal.
  - by apply var_positional_shape_make.
  - by apply var_keyword_shape_make.
Qed.

Lemma variadic_annotations_witness :
  exists cls, record text_annotations = Ok cls
    /\ dict_get "args" (__annotations__ cls) = Some (AText "tuple[int]")
    /\ dict_get "kwargs" (__annotations__ cls) = Some (AText "TypedDict").
Proof.
  eexists. split; [vm_compute; reflexivity|]. split.
  - refine (proj1 (variadic_annotations text_annotations _
      {| name := "args"; kind := VAR_POSITIONAL; default := None;
         annotation := Some (AText "int") |} (AText "int") eq_refl eq_refl _ eq_refl)
      eq_refl _ (vp_text "int")).
    right. left.
  - refine (proj1 (proj2 (variadic_annotations text_annotations _
      {| name := "kwargs"; kind := VAR_KEYWORD; default := None;
         annotation := Some (AText "Unpack[TypedDict]") |} (AText "Unpack[TypedDict]")
      eq_refl eq_refl _ eq_refl)) eq_refl _ (vk_unpack_text "TypedDict")).
    right. right. left.
Defined.

(** Claim C9 as stated fails: the annotations of the record type have no
    entry for [return], also when the function declares [-> None].  The entry
    [return: None] is in the annotations of [__init__], and these hold the
    annotations of the function as they were declared, not the adjusted
    ones. *)
Lemma class_annotations_have_no_return :
  exists cls, record text_annotations = Ok cls
    /\ func_return text_annotations = Some ANone
    /\ dict_get "return" (__annotations__ cls) = None
    /\ dict_get "args" (__annotations__ cls) = Some (AText "tuple[int]")
    /\ dict_get "return" (init__annotations__ (__init__ cls)) = Some ANone
    /\ dict_get "args" (init__annotations__ (__init__ cls)) = Some (AText "int").
Proof. eexists. split; [vm_compute; reflexivity|]. repeat split. Qed.

(** Claim C9, amended.  The annotations of the record type are the adjusted
    annotations of the annotated parameters, in declared order, and have no
    entry for [return].  The entry [return: None] is in the annotations of
    [__init__], which hold, under the name of each parameter, its annotation
    as it was declared. *)
Theorem annotations_installed (func : function) (cls : record_type) :
  well_formed_def func = true -> record func = Ok cls ->
  __annotations__ cls = entries field_annotation (func_parameters func)
  /\ dict_get "return" (__annotations__ cls) = None
  /\ dict_get "return" (init__annotations__ (__init__ cls)) = Some ANone
  /\ forall p, p ∈ func_parameters func ->
       dict_get (name p) (init__annotations__ (__init__ cls)) = annotation p.
Proof.
  intros Hwf H. pose proof (class_annotations _ _ Hwf H) as Hann.
  pose proof (init_annotations _ _ Hwf H) as Hinit.
  apply well_formed_def_spec in Hwf as (_ & Hnd & Hret).
  rewrite proposed_annotations_eq in Hinit by done.
  assert ("return" ∉ dict_keys (entries (fun _ a => a)
                                  (annotations_order (func_parameters func)))) as Hk.
  { intros Hk. apply Hret. rewrite <- annotations_order_names.
    by apply (entries_keys (fun _ a => a)). }
  split; [done|]. split; [|split].
  - rewrite Hann. apply dict_get_absent. intros Hk'. apply Hret.
    by apply (entries_keys field_annotation).
  - rewrite Hinit, dict_get_app_absent by done. reflexivity.
  - intros p Hp. rewrite Hinit, dict_get_app.
    rewrite (dict_get_entries (fun _ a => a));
      [|by rewrite annotations_order_names | by rewrite <- of_kind_split].
    destruct (annotation p) as [a|]; [done|].
    cbn [fmap option_fmap option_map dict_get].
    destruct (String.eqb_spec "return" (name p)) as [Heq|_]; [|done].
    destruct Hret. rewrite Heq. by apply list_elem_of_fmap_2.
Qed.

Lemma annotations_installed_witness :
  exists cls, record AllParameterTypes = Ok cls
    /\ __annotations__ cls = entries field_annotation (func_parameters AllParameterTypes)
    /\ dict_get "return" (__annotations__ cls) = None
    /\ dict_get "return" (init__annotations__ (__init__ cls)) = Some ANone
    /\ forall p, p ∈ func_parameters AllParameterTypes ->
         dict_get (name p) (init__annotations__ (__init__ cls)) = annotation p.
Proof.
  eexists. split; [vm_compute; reflexivity|].
  exact (annotations_installed AllParameterTypes _ eq_refl eq_refl).
Defined.

(** ** Equal values have equal hashes *)

Lemma py_eq_tuple xs ys : py_eq (VTuple xs) (VTuple ys) = items_eq xs ys.
Proof. reflexivity. Qed.

Lemma py_hash_tuple sh xs :
  py_hash sh (VTuple xs) = (lanes ← hash_items sh xs; Ok (tuplehash lanes)).
Proof.
  cbn [py_hash]. f_equal.
  induction xs as [|x xs IH]; [reflexivity|].
  cbn [hash_items]. rewrite <- IH. reflexivity.
Qed.

Lemma py_ne_false x y : py_ne x y = false <-> py_eq x y = true.
Proof. unfold py_ne. by destruct (py_eq x y). Qed.

Lemma py_eq_hash sh a : forall b, py_eq a b = true -> py_hash sh a = py_hash sh b.
Proof.
  induction a as [x|x|s|xs IH|d IH] using value_ind; intros [y|y|t|ys|e] Heq;
    try discriminate Heq.
  1-4: apply Z.eqb_eq in Heq as ->; reflexivity.
  - apply String.eqb_eq in Heq as ->. reflexivity.
  - rewrite py_eq_tuple in Heq. rewrite !py_hash_tuple.
    assert (hash_items sh xs = hash_items sh ys) as ->; [|reflexivity].
    revert ys Heq. induction IH as [|x xs Hx _ IHxs]; intros [|y ys] Heq;
      try discriminate Heq; [reflexivity|].
    cbn [items_eq] in Heq. apply andb_true_iff in Heq as [Hxy Hrest].
    cbn [hash_items]. rewrite (Hx _ Hxy), (IHxs _ Hrest). reflexivity.
  - reflexivity.
Qed.

(** ** Equality and hash of instances *)

Lemma constructed_spec i :
  constructed i = true <-> forall f, f ∈ fields i -> is_Some (slot_values i !! f).
Proof.
  unfold constructed. rewrite forallb_forall. split.
  - intros H f Hf. apply list_elem_of_In, H in Hf. by apply bool_decide_eq_true in Hf.
  - intros H f Hf. apply bool_decide_eq_true, H. by apply list_elem_of_In.
Qed.

Lemma slot_names_eq (l1 l2 : list string) :
  frozenset (SlotName <$> l1) = frozenset (SlotName <$> l2)
  <-> (list_to_set l1 : gset string) = list_to_set l2.
Proof.
  unfold frozenset. rewrite !set_eq. split; intros H x.
  - specialize (H (SlotName x)). rewrite !elem_of_list_to_set in H.
    rewrite !elem_of_list_to_set.
    by rewrite !(list_elem_of_fmap_inj SlotName) in H.
  - rewrite !elem_of_list_to_set. destruct x as [s|].
    + rewrite !(list_elem_of_fmap_inj SlotName).
      specialize (H s). by rewrite !elem_of_list_to_set in H.
    + split; intros (y & ? & _)%list_elem_of_fmap; done.
Qed.

Lemma eq_unfold iter a b :
  Record.__eq__ iter a (as_object b) =
  if bool_decide (field_set a = field_set b)
  then Record.eq_loop a (as_object b) (iter (fields a))
  else Ok NotImplemented.
Proof.
  unfold Record.__eq__, as_object. cbn [ob_class_slots].
  fold (fields a) (fields b).
  destruct (bool_decide_reflect (field_set a = field_set b)) as [Heq|Hne].
  - rewrite bool_decide_eq_false_2; [reflexivity|].
    intros H. apply H. by apply slot_names_eq.
  - rewrite bool_decide_eq_true_2; [reflexivity|].
    intros H. apply Hne. by apply slot_names_eq.
Qed.

Lemma eq_no_slots iter a attrs :
  Record.__eq__ iter a {| ob_class_slots := None; ob_attrs := attrs |} = Ok NotImplemented.
Proof.
  unfold Record.__eq__. cbn [ob_class_slots].
  rewrite bool_decide_eq_true_2; [reflexivity|].
  unfold frozenset. intros H.
  assert (FreshObject ∈ (list_to_set (SlotName <$> iter_slots (__slots__ (type_of a))) : gset slot_entry)) as Hin.
  { rewrite H. set_solver. }
  apply elem_of_list_to_set, list_elem_of_fmap in Hin as (? & ? & _). done.
Qed.

Lemma eq_loop_true a o attrs :
  Record.eq_loop a o attrs = Ok PyTrue <-> forall f, f ∈ attrs -> same_value a o f.
Proof.
  induction attrs as [|f rest IH]; cbn [Record.eq_loop].
  - split; [intros _ f Hf; inversion Hf | done].
  - split.
    + intros H g Hg.
      destruct (ob_attrs o !! f) as [y|] eqn:Hy; [|done].
      unfold getattr in H. destruct (slot_values a !! f) as [x|] eqn:Hx; [|done].
      cbn [mbind result_bind] in H. destruct (py_ne x y) eqn:Hne; [done|].
      apply elem_of_cons in Hg as [-> | Hg].
      * by exists x, y.
      * by apply IH.
    + intros H. destruct (H f) as (x & y & Hx & Hy & Hne); [left|].
      rewrite Hy. unfold getattr. rewrite Hx. cbn [mbind result_bind]. rewrite Hne.
      apply IH. intros g Hg. apply H. by right.
Qed.

Lemma eq_loop_false a o attrs :
  (forall f, f ∈ attrs -> is_Some (slot_values a !! f)) ->
  (forall f, f ∈ attrs -> is_Some (ob_attrs o !! f)) ->
  (exists f, f ∈ attrs /\ other_value a o f) ->
  Record.eq_loop a o attrs = Ok PyFalse.
Proof.
  induction attrs as [|f rest IH]; intros Ha Ho (g & Hg & Hother).
  - inversion Hg.
  - cbn [Record.eq_loop].
    destruct (Ho f) as [y Hy]; [left|]. destruct (Ha f) as [x Hx]; [left|].
    rewrite Hy. unfold getattr. rewrite Hx. cbn [mbind result_bind].
    destruct (py_ne x y) eqn:Hne; [reflexivity|].
    apply IH.
    + intros h Hh. apply Ha. by right.
    + intros h Hh. apply Ho. by right.
    + exists g. split; [|done]. apply elem_of_cons in Hg as [-> | Hg]; [|done].
      destruct Hother as (x' & y' & Hx' & Hy' & Hne'). cbn [as_object ob_attrs] in *. congruence.
Qed.

Lemma iter_field_set iter a f :
  iteration_order iter -> f ∈ iter (fields a) <-> f ∈ field_set a.
Proof. intros Hiter. unfold field_set. rewrite elem_of_list_to_set. apply Hiter. Qed.

Lemma field_values_same a b l :
  (forall f, f ∈ l -> same_value a (as_object b) f) ->
  exists va vb,
    Record.field_values a l = Ok va /\ Record.field_values b l = Ok vb
    /\ items_eq va vb = true.
Proof.
  induction l as [|f rest IH]; intros H.
  - by exists [], [].
  - destruct (H f) as (x & y & Hx & Hy & Hne); [left|]. cbn [as_object ob_attrs] in Hy.
    destruct IH as (va & vb & Ha & Hb & Heq); [intros g Hg; apply H; by right|].
    exists (x :: va), (y :: vb). cbn [Record.field_values]. unfold getattr.
    rewrite Hx, Hy, Ha, Hb. cbn. apply py_ne_false in Hne. by rewrite Hne, Heq.
Qed.

Lemma field_values_constructed a l :
  (forall f, f ∈ l -> is_Some (slot_values a !! f)) ->
  exists vs, Forall2 (fun f v => slot_values a !! f = Some v) l vs
             /\ Record.field_values a l = Ok vs.
Proof.
  induction l as [|f rest IH]; intros H.
  - exists []. split; [constructor | reflexivity].
  - destruct (H f) as [v Hv]; [left|].
    destruct IH as (vs & Hvs & Heq); [intros g Hg; apply H; by right|].
    exists (v :: vs). split; [by constructor|].
    cbn [Record.field_values]. unfold getattr. by rewrite Hv, Heq.
Qed.

Lemma same_type_field_set a b : type_of a = type_of b -> field_set a = field_set b.
Proof. unfold field_set, fields. by intros ->. Qed.

Lemma remove_dups_order : iteration_order remove_dups.
Proof. intros l. split; [apply NoDup_remove_dups | intros x; apply elem_of_remove_dups]. Qed.

Section Equality.
Variable iter : list string -> list string.
Hypothesis iter_order : iteration_order iter.

Lemma eq_true_iff a b :
  Record.__eq__ iter a (as_object b) = Ok PyTrue <->
  field_set a = field_set b /\ forall f, f ∈ field_set a -> same_value a (as_object b) f.
Proof.
  rewrite eq_unfold. case_bool_decide as Hs.
  - rewrite eq_loop_true. split.
    + intros H. split; [done|]. intros f Hf. apply H. by apply iter_field_set.
    + intros [_ H] f Hf. apply H. by apply iter_field_set in Hf.
  - split; [done | by intros [? _]].
Qed.

Lemma eq_false_if a b :
  constructed a = true -> constructed b = true ->
  field_set a = field_set b ->
  (exists f, f ∈ field_set a /\ other_value a (as_object b) f) ->
  Record.__eq__ iter a (as_object b) = Ok PyFalse.
Proof.
  intros Ha Hb Hs (f & Hf & Hother).
  rewrite constructed_spec in Ha, Hb.
  rewrite eq_unfold, bool_decide_eq_true_2 by done.
  apply eq_loop_false.
  - intros g Hg%iter_field_set; [|done]. apply Ha. by apply elem_of_list_to_set in Hg.
  - intros g Hg%iter_field_set; [|done]. cbn [as_object ob_attrs]. apply Hb.
    rewrite Hs in Hg. by apply elem_of_list_to_set in Hg.
  - exists f. split; [|done]. by apply iter_field_set.
Qed.



Variable str_hash : string -> Z.

(** Claim C8.  The hash of an instance is the hash of the tuple of its field
    values, taken in the order of the fields of its type.  Two instances of
    the same type whose values compare equal field by field are equal and
    have the same hash (or are both unhashable); two instances of the same
    type whose values under some field compare unequal are not equal. *)
Theorem hash_in_field_order (a b : instance) :
  constructed a = true -> constructed b = true -> type_of a = type_of b ->
  (exists vs, Forall2 (fun f v => slot_values a !! f = Some v) (fields a) vs
              /\ Record.__hash__ str_hash a = py_hash str_hash (VTuple vs))
  /\ ((forall f, f ∈ fields a -> same_value a (as_object b) f) ->
      Record.__eq__ iter a (as_object b) = Ok PyTrue
      /\ Record.__hash__ str_hash a = Record.__hash__ str_hash b)
  /\ ((exists f, f ∈ fields a /\ other_value a (as_object b) f) ->
      Record.__eq__ iter a (as_object b) = Ok PyFalse).
Proof.
  intros Ha Hb Ht. split; [|split].
  - rewrite constructed_spec in Ha.
    destruct (field_values_constructed a (fields a) Ha) as (vs & Hvs & Heq).
    exists vs. split; [done|]. unfold Record.__hash__. fold (fields a). by rewrite Heq.
  - intros Hsame. split.
    + apply eq_true_iff. split; [by apply same_type_field_set|].
      intros f Hf. apply Hsame. by apply elem_of_list_to_set in Hf.
    + destruct (field_values_same a b (fields a) Hsame) as (va & vb & Hva & Hvb & Heq).
      unfold Record.__hash__. fold (fields a) (fields b).
      replace (fields b) with (fields a) by (unfold fields; by rewrite Ht).
      rewrite Hva, Hvb. cbn [mbind result_bind]. by apply py_eq_hash.
  - intros (f & Hf & Hother). apply eq_false_if; [done | done | by apply same_type_field_set |].
    exists f. split; [|done]. by apply elem_of_list_to_set.
Qed.

(** Claim C10.  Equality looks at the set of field names and at the values
    under each name, whatever the order of the fields.  So an instance of
    [Point2D] (fields [x], [y]) and an instance of a type with the fields
    [y], [x], holding the same values under the same names, are equal, while
    their hashes, each taken in the order of its own type, differ. *)
Theorem equal_with_different_hashes :
  (forall a b, field_set a = field_set b ->
     (forall f, f ∈ field_set a -> same_value a (as_object b) f) ->
     Record.__eq__ iter a (as_object b) = Ok PyTrue)
  /\ exists A B a b,
       record Point2D = Ok A /\ record Point2D_yx = Ok B
       /\ type_call A [VInt 1; VInt 2] [] = Ok a
       /\ type_call B [VInt 2; VInt 1] [] = Ok b
       /\ Record.__eq__ iter a (as_object b) = Ok PyTrue
       /\ exists ha hb, Record.__hash__ str_hash a = Ok ha
                        /\ Record.__hash__ str_hash b = Ok hb /\ ha <> hb.
Proof.
  split; [intros a b Hs H; by apply eq_true_iff|].
  eexists _, _, _, _.
  split; [vm_compute; reflexivity|]. split; [vm_compute; reflexivity|].
  split; [vm_compute; reflexivity|]. split; [vm_compute; reflexivity|].
  split.
  - apply eq_true_iff. split; [by vm_compute|].
    intros f Hf. apply elem_of_list_to_set in Hf. cbn in Hf.
    apply elem_of_cons in Hf as [-> | Hf]; [|apply list_elem_of_singleton in Hf as ->].
    + exists (VInt 1), (VInt 1). by vm_compute.
    + exists (VInt 2), (VInt 2). by vm_compute.
  - eexists _, _. split; [vm_compute; reflexivity|]. split; [vm_compute; reflexivity|]. done.
Qed.

End Equality.


Lemma hash_in_field_order_witness :
  exists cls a,
    record Point2D = Ok cls
    /\ type_call cls [VFloat 2; VFloat 3] [] = Ok a
    /\ exists vs,
         Forall2 (fun f v => slot_values a !! f = Some v) (fields a) vs
         /\ Record.__hash__ (fun _ => 0%Z) a = py_hash (fun _ => 0%Z) (VTuple vs).
Proof.
  eexists _, _. split; [vm_compute; reflexivity|]. split; [vm_compute; reflexivity|].
  match goal with
  | |- context [Record.__hash__ _ ?a] =>
      exact (proj1 (hash_in_field_order remove_dups remove_dups_order (fun _ => 0%Z)
                      a a eq_refl eq_refl eq_refl))
  end.
Defined.

Lemma equal_with_different_hashes_witness :
  exists A B a b,
    record Point2D = Ok A /\ record Point2D_yx = Ok B
    /\ type_call A [VInt 1; VInt 2] [] = Ok a
    /\ type_call B [VInt 2; VInt 1] [] = Ok b
    /\ Record.__eq__ remove_dups a (as_object b) = Ok PyTrue
    /\ exists ha hb, Record.__hash__ (fun _ => 0%Z) a = Ok ha
                     /\ Record.__hash__ (fun _ => 0%Z) b = Ok hb /\ ha <> hb.
Proof.
  exact (proj2 (equal_with_different_hashes remove_dups remove_dups_order (fun _ => 0%Z))).
Defined.

Lemma reverse_remove_dups_order :
  iteration_order (fun l => reverse (remove_dups l)).
Proof.
  intros l. split.
  - rewrite reverse_Permutation. apply NoDup_remove_dups.
  - intros x. by rewrite elem_of_reverse, elem_of_remove_dups.
Qed.

(** For an object that is no record instance and has a slot unset, the
    result depends on the order in which the loop visits the names: the unset
    attribute gives [NotImplemented] when it comes first, and an unequal
    value that comes before it gives [False]. *)
Lemma eq_with_unset_slot_depends_on_order :
  exists cls a,
    record Point2D = Ok cls
    /\ type_call cls [VFloat 2; VFloat 3] [] = Ok a
    /\ Record.__eq__ remove_dups a HasSlots_y_only = Ok NotImplemented
    /\ Record.__eq__ (fun l => reverse (remove_dups l)) a HasSlots_y_only = Ok PyFalse.
Proof.
  eexists _, _. split; [vm_compute; reflexivity|]. split; [vm_compute; reflexivity|].
  split; vm_compute; reflexivity.
Qed.

(** ** Mutation *)

(** Claim C3.  An assignment to an attribute of an instance, and the deletion
    of one, raise [TypeError] with a message that names the type of the
    instance, and leave the instance, hence every field value, as it was. *)
Theorem mutation_is_rejected (self : instance) (attr : string) (v : value) :
  assign_attribute self attr v =
    (Raise (TypeError (__name__ (type_of self)
                       ++ " object does not support attribute assignment")), self)
  /\ delete_attribute self attr =
    (Raise (TypeError (__name__ (type_of self)
                       ++ " object does not support attribute deletion")), self)
  /\ (forall f, getattr (snd (assign_attribute self attr v)) f = getattr self f)
  /\ (forall f, getattr (snd (delete_attribute self attr)) f = getattr self f).
Proof. repeat split. Qed.

(** ** The representation *)

Lemma repr_loop_rendered self params args :
  (forall p, p ∈ params -> is_Some (slot_values self !! name p)) ->
  exists vals,
    Forall2 (fun p v => slot_values self !! name p = Some v) params vals
    /\ Record.repr_loop self params args
       = Ok (args ++ zip_with rendered_field params vals)%list.
Proof.
  revert args. induction params as [|p rest IH]; intros args H.
  - exists []. split; [constructor|]. cbn. by rewrite app_nil_r.
  - destruct (H p) as [v Hv]; [left|].
    destruct (IH (list_append args (rendered_field p v))) as (vals & Hvals & Heq);
      [intros q Hq; apply H; by right|].
    exists (v :: vals). split; [by constructor|].
    cbn [Record.repr_loop]. unfold getattr. rewrite Hv. cbn [mbind result_bind].
    cbn [zip_with]. rewrite (app_assoc args [_] _ ) || idtac.
    unfold list_append in Heq. rewrite <- app_assoc in Heq. cbn [app] in Heq.
    rewrite <- Heq. unfold rendered_field, list_append. by destruct (kind p).
Qed.

(** Claim C5.  The representation of an instance is the name of its type
    followed, between parentheses and separated by [", "], by one item per
    parameter of the stored [__init__]: the value alone for a positional-only
    parameter, [name=value] for a positional-or-keyword or keyword-only one,
    [*value] for [*args] and [**value] for [**kwargs].  The instance of
    [AllParameterTypes] built by the call with [1.0, 2, 3, 4, kw="5", extra=6]
    is represented as
    [AllParameterTypes(1.0, pos_kw=2, *(3, 4), kw='5', **{'extra': 6})]. *)
Theorem repr_rebuilds_the_call :
  (forall self : instance,
     let params := tail (init_parameters (__init__ (type_of self))) in
     (forall p, p ∈ params -> is_Some (slot_values self !! name p)) ->
     exists vals,
       Forall2 (fun p v => slot_values self !! name p = Some v) params vals
       /\ Record.__repr__ self
          = Ok (__name__ (type_of self) ++ "("
                ++ join ", " (zip_with rendered_field params vals) ++ ")"))
  /\ exists cls ins,
       record AllParameterTypes = Ok cls
       /\ type_call cls [VFloat 1; VInt 2; VInt 3; VInt 4]
            [("kw", VStr "5"); ("extra", VInt 6)] = Ok ins
       /\ Record.__repr__ ins
          = Ok "AllParameterTypes(1.0, pos_kw=2, *(3, 4), kw='5', **{'extra': 6})".
Proof.
  split.
  - intros self params H.
    destruct (repr_loop_rendered self params [] H) as (vals & Hvals & Heq).
    exists vals. split; [done|]. unfold Record.__repr__. fold params. by rewrite Heq.
  - eexists _, _. split; [vm_compute; reflexivity|]. split; [vm_compute; reflexivity|].
    vm_compute. reflexivity.
Qed.

(** * Further properties of the code *)

(** ** Binding the arguments of a call *)

Lemma find_kind_Some k (params : list Param) p :
  find_kind k params = Some p -> p ∈ params /\ kind p = k.
Proof.
  unfold find_kind. intros H. apply find_some in H as [Hin Hk].
  split; [by apply list_elem_of_In | by apply bool_decide_eq_true in Hk].
Qed.

Lemma find_kind_None k (params : list Param) :
  find_kind k params = None <-> forall p, p ∈ params -> kind p <> k.
Proof.
  unfold find_kind. split.
  - intros H p Hp Hk. apply list_elem_of_In in Hp.
    pose proof (find_none _ _ H p Hp) as Hf. by apply bool_decide_eq_false in Hf.
  - intros H. destruct (List.find _ params) as [p|] eqn:Hf; [|done].
    apply find_some in Hf as [Hin Hk]. apply bool_decide_eq_true in Hk.
    apply list_elem_of_In in Hin. by destruct (H p Hin).
Qed.

Lemma find_kind_is_Some k (params : list Param) p :
  p ∈ params -> kind p = k -> is_Some (find_kind k params).
Proof.
  intros Hp Hk. destruct (find_kind k params) eqn:Hf; [by eexists|].
  by destruct (proj1 (find_kind_None k params) Hf p Hp).
Qed.

Lemma grows_refl names l : grows names l l.
Proof. split; [done | by left]. Qed.

Lemma grows_trans names l1 l2 l3 :
  grows names l1 l2 -> grows names l2 l3 -> grows names l1 l3.
Proof.
  intros [H1 H1'] [H2 H2']. split; [by auto|].
  intros k Hk. destruct (H2' k Hk) as [H|H]; [by apply H1' | by right].
Qed.

Lemma grows_insert names (l : gmap string value) k v :
  k ∈ names -> grows names l (<[k := v]> l).
Proof.
  intros Hin. split.
  - intros k' H. destruct (decide (k = k')) as [<-|Hne].
    + rewrite lookup_insert_eq. by eexists.
    + by rewrite lookup_insert_ne.
  - intros k' H. destruct (decide (k = k')) as [<-|Hne]; [by right|].
    left. by rewrite lookup_insert_ne in H.
Qed.

Lemma bind_keywords_grows params kwargs l kd l' kd' :
  bind_keywords params kwargs l kd = Ok (l', kd') ->
  grows (name <$> params) l l'.
Proof.
  revert l kd. induction kwargs as [|[k v] rest IH]; intros l kd H; cbn [bind_keywords] in H.
  - injection H as <- <-. apply grows_refl.
  - destruct (existsb _ params) eqn:Hex.
    + destruct (l !! k) eqn:Hk; [done|].
      apply IH in H. eapply grows_trans; [|exact H].
      apply grows_insert.
      apply existsb_exists in Hex as (p & Hp & Hpk).
      apply andb_true_iff in Hpk as [_ Heq]. apply String.eqb_eq in Heq as <-.
      apply list_elem_of_fmap_2. by apply list_elem_of_In.
    + destruct (find_kind VAR_KEYWORD params); [|done].
      destruct (existsb _ kd); [done|]. by apply IH in H.
Qed.

Lemma bind_defaults_grows (pds : list (Param * option value)) l l' names :
  bind_defaults pds l = Ok l' ->
  (forall pd, pd ∈ pds -> name (fst pd) ∈ names) ->
  grows names l l' /\ forall pd, pd ∈ pds -> is_Some (l' !! name (fst pd)).
Proof.
  revert l. induction pds as [|[p d] rest IH]; intros l H Hn; cbn [bind_defaults] in H.
  - injection H as <-. split; [apply grows_refl | intros pd Hpd; inversion Hpd].
  - assert (forall pd, pd ∈ rest -> name pd.1 ∈ names) as Hn' by (intros; apply Hn; by right).
    destruct (l !! name p) as [v|] eqn:Hp.
    + destruct (IH _ H Hn') as [Hg Hall]. split; [done|].
      intros pd [->|Hpd]%elem_of_cons; [|by apply Hall].
      cbn. apply Hg. by exists v.
    + destruct d as [v|]; [|done].
      destruct (IH _ H Hn') as [Hg Hall]. split.
      * eapply grows_trans; [|exact Hg]. apply grows_insert. apply (Hn (p, Some v)). left.
      * intros pd [->|Hpd]%elem_of_cons; [|by apply Hall].
        cbn. apply Hg. rewrite lookup_insert_eq. by eexists.
Qed.

Lemma list_to_map_zip_names (ns : list string) (vs : list value) k :
  is_Some ((list_to_map (zip ns vs) : gmap string value) !! k) -> k ∈ ns.
Proof.
  intros [v Hv]. apply elem_of_list_to_map_2 in Hv.
  apply elem_of_zip_l in Hv. done.
Qed.

Lemma positional_defaults_length {A} (argcount : nat) (defaults : list A) :
  List.length (replicate (argcount - List.length defaults) (@None A)
               ++ (Some <$> drop (List.length defaults - argcount) defaults))%list
  = argcount.
Proof. rewrite List.length_app, length_replicate, length_fmap, length_drop. lia. Qed.

Lemma count_kind_unique k (params : list Param) p q :
  (count_kind k params <= 1)%nat ->
  p ∈ params -> q ∈ params -> kind p = k -> kind q = k -> p = q.
Proof.
  unfold count_kind. intros Hc Hp Hq Hkp Hkq.
  assert (forall r, r ∈ params -> kind r = k ->
            In r (List.filter (fun p => bool_decide (kind p = k)) params)) as Hin.
  { intros r Hr Hk. apply filter_In. split; [by apply list_elem_of_In|].
    by apply bool_decide_eq_true. }
  pose proof (Hin p Hp Hkp) as Hp'. pose proof (Hin q Hq Hkq) as Hq'.
  destruct (List.filter _ params) as [|x [|y l]]; cbn in *; [done | | lia].
  destruct Hp' as [<-|[]], Hq' as [<-|[]]. done.
Qed.

Lemma elem_of_zip_same_length {A B} (l1 : list A) (l2 : list B) x :
  List.length l2 = List.length l1 -> x ∈ l1 -> exists y, (x, y) ∈ zip l1 l2.
Proof.
  revert l2. induction l1 as [|a l1 IH]; intros [|b l2] Hl Hx; try done; [inversion Hx|].
  apply elem_of_cons in Hx as [->|Hx].
  - exists b. left.
  - destruct (IH l2) as [y Hy]; [by injection Hl | done |]. exists y. by right.
Qed.

(** A successful binding fills every parameter, and nothing else. *)
Lemma bind_arguments_names (params : list Param) defaults kwdefaults args kwargs locals :
  (count_kind VAR_POSITIONAL params <= 1)%nat ->
  (count_kind VAR_KEYWORD params <= 1)%nat ->
  bind_arguments params defaults kwdefaults args kwargs = Ok locals ->
  forall k, is_Some (locals !! k) <-> k ∈ name <$> params.
Proof.
  intros Hvp Hvk H. unfold bind_arguments in H.
  set (positional := List.filter is_positional params) in *.
  set (l0 := list_to_map (zip (name <$> positional) args) : gmap string value) in *.
  assert (forall p, p ∈ positional -> p ∈ params) as Hpos.
  { intros p Hp. apply list_elem_of_In, filter_In in Hp as [Hp _]. by apply list_elem_of_In. }
  assert (grows (name <$> params) ∅ l0) as G0.
  { split; [intros k [v Hv]; by rewrite lookup_empty in Hv|].
    intros k Hk%list_to_map_zip_names. right.
    apply list_elem_of_fmap in Hk as (p & -> & Hp). apply list_elem_of_fmap_2. by apply Hpos. }
  destruct (match find_kind VAR_POSITIONAL params with
            | Some p => _ | None => _ end) as [l1|] eqn:H1; [|done].
  cbn [mbind result_bind] in H.
  destruct (bind_keywords params kwargs l1 []) as [[l2 kd]|] eqn:H2; [|done].
  cbn [mbind result_bind fst snd] in H.
  set (l3 := match find_kind VAR_KEYWORD params with
             | Some p => <[name p := VDict kd]> l2 | None => l2 end) in *.
  match type of H with
  | context [bind_defaults ?pds l3] => destruct (bind_defaults pds l3) as [l4|] eqn:H4; [|done];
      set (pds1 := pds) in *
  end.
  cbn [mbind result_bind] in H.
  match type of H with
  | bind_defaults ?pds l4 = _ => set (pds2 := pds) in *
  end.
  apply bind_keywords_grows in H2 as G2.
  assert (forall pd, pd ∈ pds1 -> pd.1 ∈ positional) as Hpds1.
  { intros [p d] Hpd. by apply elem_of_zip_l in Hpd. }
  destruct (bind_defaults_grows pds1 l3 l4 (name <$> params) H4) as [G4 A4].
  { intros pd Hpd. apply list_elem_of_fmap_2, Hpos. by apply Hpds1. }
  assert (forall pd, pd ∈ pds2 -> kind pd.1 = KEYWORD_ONLY /\ pd.1 ∈ params) as Hpds2.
  { intros pd (p & -> & Hp)%list_elem_of_fmap. apply list_elem_of_In, filter_In in Hp as [Hp Hk].
    apply bool_decide_eq_true in Hk. split; [done | by apply list_elem_of_In]. }
  destruct (bind_defaults_grows pds2 l4 locals (name <$> params) H) as [G5 A5].
  { intros pd Hpd. apply list_elem_of_fmap_2. by apply Hpds2. }
  (* the two variadic steps *)
  assert (grows (name <$> params) l0 l1 /\
          forall p, p ∈ params -> kind p = VAR_POSITIONAL -> is_Some (l1 !! name p)) as [G1 A1].
  { destruct (find_kind VAR_POSITIONAL params) as [q|] eqn:Hq.
    - injection H1 as <-. apply find_kind_Some in Hq as Hq'. destruct Hq' as [Hqin Hqk]. split.
      + apply grows_insert. by apply list_elem_of_fmap_2.
      + intros p Hp Hk.
        rewrite (count_kind_unique VAR_POSITIONAL params p q Hvp Hp Hqin Hk Hqk).
        rewrite lookup_insert_eq. by eexists.
    - split; [|intros p Hp Hk; by destruct (proj1 (find_kind_None _ _) Hq p Hp)].
      destruct (drop _ args); [|done]. injection H1 as <-. apply grows_refl. }
  assert (grows (name <$> params) l2 l3 /\
          forall p, p ∈ params -> kind p = VAR_KEYWORD -> is_Some (l3 !! name p)) as [G3 A3].
  { subst l3. destruct (find_kind VAR_KEYWORD params) as [q|] eqn:Hq.
    - apply find_kind_Some in Hq as Hq'. destruct Hq' as [Hqin Hqk]. split.
      + apply grows_insert. by apply list_elem_of_fmap_2.
      + intros p Hp Hk.
        rewrite (count_kind_unique VAR_KEYWORD params p q Hvk Hp Hqin Hk Hqk).
        rewrite lookup_insert_eq. by eexists.
    - split; [apply grows_refl|].
      intros p Hp Hk. by destruct (proj1 (find_kind_None _ _) Hq p Hp). }
  assert (grows (name <$> params) ∅ locals) as [_ Gdom].
  { repeat (eapply grows_trans; [eassumption|]). apply grows_refl. }
  intros k. split.
  - intros Hk. destruct (Gdom k Hk) as [[v Hv]|]; [by rewrite lookup_empty in Hv | done].
  - intros (p & -> & Hp)%list_elem_of_fmap.
    destruct G2 as [M2 _], G3 as [M3 _], G4 as [M4 _], G5 as [M5 _].
    assert (is_positional p = true -> is_Some (locals !! name p)) as Hpositional.
    { intros Hk. assert (p ∈ positional) as Hpp.
      { apply list_elem_of_In, filter_In. split; [by apply list_elem_of_In | done]. }
      assert (exists d, (p, d) ∈ pds1) as [d Hd].
      { subst pds1. apply elem_of_zip_same_length; [apply positional_defaults_length | done]. }
      apply M5. exact (A4 (p, d) Hd). }
    destruct (kind p) eqn:Hk.
    + apply Hpositional. unfold is_positional. by rewrite Hk.
    + apply Hpositional. unfold is_positional. by rewrite Hk.
    + by apply M5, M4, M3, M2, A1.
    + apply (A5 (p, dict_get (name p) match kwdefaults with Some ds => ds | None => [] end)).
      apply (list_elem_of_fmap_2 (fun p => (p, dict_get (name p) _))).
      apply list_elem_of_In, filter_In. split; [by apply list_elem_of_In|].
      by apply bool_decide_eq_true.
    + by apply M5, M4, A3.
Qed.

(** ** The body of [__init__] *)

Lemma exec_body_Ok locals self ns i :
  exec_body locals self (setattr_statements ns) = Ok i ->
  type_of i = type_of self
  /\ (forall k, slot_values i !! k =
                if decide (k ∈ ns) then locals !! k else slot_values self !! k)
  /\ (forall n, n ∈ ns -> is_Some (locals !! n)).
Proof.
  revert self. induction ns as [|n rest IH]; intros self H.
  - injection H as <-. split; [done|]. split; [done | intros n Hn; inversion Hn].
  - cbn [setattr_statements fmap list_fmap exec_body exec_statement] in H.
    destruct (locals !! "object"); [done|].
    destruct (locals !! n) as [v|] eqn:Hv; [|done].
    destruct (String.eqb _ "object"); [done|].
    unfold object_setattr in H. case_bool_decide; [|done].
    cbn [mbind result_bind] in H. apply IH in H as (Ht & Hl & Hs). cbn in Ht, Hl.
    split; [done|]. split.
    + intros k. rewrite Hl. destruct (decide (k = n)) as [->|Hne].
      * rewrite lookup_insert_eq. rewrite (decide_True _ _ (list_elem_of_here n rest)).
        by destruct (decide (n ∈ rest)).
      * rewrite lookup_insert_ne by done.
        destruct (decide (k ∈ rest)) as [Hin|Hnin].
        -- by rewrite decide_True by (by right).
        -- rewrite decide_False; [done|]. by intros [?|?]%elem_of_cons.
    + intros m [->|Hm]%elem_of_cons; [by eexists | by apply Hs].
Qed.

Lemma exec_body_succeeds locals self ns :
  locals !! "object" = None ->
  __name__ (type_of self) <> "object" ->
  (forall n, n ∈ ns ->
     is_Some (locals !! n) /\ n ∈ slot_descriptors (__slots__ (type_of self))) ->
  exists i, exec_body locals self (setattr_statements ns) = Ok i.
Proof.
  intros Hobj Hname. revert self Hname. induction ns as [|n rest IH]; intros self Hname H.
  - by exists self.
  - cbn [setattr_statements fmap list_fmap exec_body exec_statement].
    rewrite Hobj. destruct (H n) as [[v Hv] Hslot]; [left|]. rewrite Hv.
    rewrite (proj2 (String.eqb_neq _ _) Hname).
    unfold object_setattr. rewrite bool_decide_eq_true_2 by done.
    cbn [mbind result_bind]. apply IH; [done|]. intros m Hm. apply H. by right.
Qed.

Lemma exec_body_raises_object locals self n rest :
  is_Some (locals !! "object") \/ __name__ (type_of self) = "object" ->
  exists e, exec_body locals self (setattr_statements (n :: rest)) = Raise e.
Proof.
  intros H. cbn [setattr_statements fmap list_fmap exec_body exec_statement].
  destruct (locals !! "object") eqn:Hobj; [by eexists|].
  destruct H as [[? ?]|Hname]; [done|].
  destruct (locals !! n); [|by eexists].
  rewrite Hname. cbn. by eexists.
Qed.

(** ** The record type as a callable *)

Lemma count_kind_replace k (params : list Param) :
  count_kind k (Parameter_replace_empty <$> params) = count_kind k params.
Proof.
  unfold count_kind. induction params as [|p rest IH]; [done|].
  cbn. destruct (bool_decide (kind p = k)); cbn; by rewrite IH.
Qed.

Lemma well_formed_def_counts func :
  well_formed_def func = true ->
  (count_kind VAR_POSITIONAL (func_parameters func) <= 1)%nat
  /\ (count_kind VAR_KEYWORD (func_parameters func) <= 1)%nat.
Proof.
  unfold well_formed_def. rewrite !andb_true_iff, !Nat.leb_le. tauto.
Qed.

Lemma type_call_unfold func cls args kwargs :
  record func = Ok cls ->
  type_call cls args kwargs =
  (locals ← bind_arguments (bound_parameters func) (func__defaults__ func)
              (func__kwdefaults__ func) args kwargs;
   exec_body locals {| type_of := cls; slot_values := ∅ |}
     match func_parameters func with
     | [] => [Pass]
     | _ => setattr_statements (name <$> func_parameters func)
     end).
Proof.
  intros H. pose proof (record_Ok_inv _ _ H)
    as (_ & _ & _ & _ & _ & _ & _ & _ & _ & Hparams & Hbody & _ & Hdef & Hkw).
  unfold type_call. rewrite Hparams, Hbody, Hdef, Hkw. cbn [tail].
  fold (bound_parameters func).
  destruct (func_parameters func) as [|p rest]; [done|].
  unfold setattr_statements. by rewrite <- list_fmap_compose.
Qed.

(** Property X1.  Whatever the arguments, an instance that a call of a record
    type returns is an instance of that type with a value in every field:
    the names that hold a value are exactly the names of the parameters of
    the decorated function, and each field holds what the binding of the
    arguments gave to the parameter of that name. *)
Theorem type_call_fills_every_field (func : function) (cls : record_type)
    (args : list value) (kwargs : list (string * value)) (i : instance) :
  unmangled func = true ->
  record func = Ok cls ->
  type_call cls args kwargs = Ok i ->
  type_of i = cls
  /\ constructed i = true
  /\ (forall k, is_Some (slot_values i !! k) <-> k ∈ name <$> func_parameters func)
  /\ exists locals,
       bind_arguments (bound_parameters func) (func__defaults__ func)
         (func__kwdefaults__ func) args kwargs = Ok locals
       /\ forall k, k ∈ name <$> func_parameters func ->
                    slot_values i !! k = locals !! k.
Proof.
  intros _ H Hcall. rewrite (type_call_unfold _ _ _ _ H) in Hcall.
  destruct (bind_arguments _ _ _ args kwargs) as [locals|] eqn:Hbind; [|done].
  cbn [mbind result_bind] in Hcall.
  pose proof (record_Ok_inv _ _ H) as (_ & _ & _ & _ & _ & _ & Hslots & _).
  assert (type_of i = cls /\
          (forall k, slot_values i !! k =
                     if decide (k ∈ name <$> func_parameters func)
                     then locals !! k else None)
          /\ (forall n, n ∈ name <$> func_parameters func -> is_Some (locals !! n)))
    as (Ht & Hl & Hs).
  { destruct (func_parameters func) as [|p rest] eqn:Hp.
    - injection Hcall as <-. split; [done|]. split; [done | intros n Hn; inversion Hn].
    - apply exec_body_Ok in Hcall as (Ht & Hl & Hs). cbn in Ht, Hl. split; [done|].
      split; [|done]. intros k. rewrite Hl. by rewrite lookup_empty. }
  split; [done|]. split; [|split].
  - apply constructed_spec. intros f Hf. unfold fields in Hf. rewrite Ht, Hslots in Hf.
    cbn in Hf. rewrite Hl, decide_True by done. by apply Hs.
  - intros k. rewrite Hl. destruct (decide _) as [Hin|Hnin].
    + split; [done | intros _; by apply Hs].
    + split; [by intros [? ?] | done].
  - exists locals. split; [done|]. intros k Hk. by rewrite Hl, decide_True.
Qed.

Lemma type_call_fills_every_field_witness :
  exists cls i,
    record AllParameterTypes = Ok cls
    /\ type_call cls [VFloat 1; VInt 2; VInt 3; VInt 4]
         [("kw", VStr "5"); ("extra", VInt 6)] = Ok i
    /\ constructed i = true.
Proof.
  eexists _, _. split; [vm_compute; reflexivity|]. split; [vm_compute; reflexivity|].
  match goal with
  | |- constructed ?i = true =>
      exact (proj1 (proj2 (type_call_fills_every_field AllParameterTypes _
               [VFloat 1; VInt 2; VInt 3; VInt 4] [("kw", VStr "5"); ("extra", VInt 6)]
               i eq_refl eq_refl eq_refl)))
  end.
Defined.

(** With no name [object] in the way, the call is the binding of the
    arguments followed by one store per parameter. *)
Lemma type_call_bound (func : function) (cls : record_type)
    (args : list value) (kwargs : list (string * value)) :
  well_formed_def func = true ->
  record func = Ok cls ->
  "object" ∉ name <$> func_parameters func ->
  func__name__ func <> "object" ->
  type_call cls args kwargs =
  (locals ← bind_arguments (bound_parameters func) (func__defaults__ func)
              (func__kwdefaults__ func) args kwargs;
   Ok {| type_of := cls; slot_values := locals |}).
Proof.
  intros Hwf H Hobj Hname. rewrite (type_call_unfold _ _ _ _ H).
  destruct (bind_arguments _ _ _ args kwargs) as [locals|] eqn:Hbind; [|done].
  cbn [mbind result_bind].
  destruct (well_formed_def_counts _ Hwf) as [Hvp Hvk].
  pose proof (bind_arguments_names _ _ _ _ _ _
                (eq_ind_r (fun n => (n <= 1)%nat) Hvp (count_kind_replace _ _))
                (eq_ind_r (fun n => (n <= 1)%nat) Hvk (count_kind_replace _ _)) Hbind) as Hdom.
  unfold bound_parameters in Hdom. setoid_rewrite names_replace in Hdom.
  pose proof (record_Ok_inv _ _ H) as (_ & _ & Hn & _ & _ & _ & Hslots & _).
  destruct (func_parameters func) as [|p rest] eqn:Hp.
  - cbn. do 2 f_equal. apply map_eq. intros k. rewrite lookup_empty.
    symmetry. apply eq_None_not_Some. rewrite Hdom. by intros ?%elem_of_nil.
  - destruct (exec_body_succeeds locals {| type_of := cls; slot_values := ∅ |}
                (name <$> p :: rest)) as [i Hi].
    + apply eq_None_not_Some. by rewrite Hdom.
    + cbn. by rewrite Hn.
    + intros n Hin. split; [by apply Hdom|]. cbn. by rewrite Hslots.
    + rewrite Hi. apply exec_body_Ok in Hi as (Ht & Hl & _). cbn in Ht, Hl.
      destruct i as [t m]. cbn in *. subst t. do 2 f_equal. apply map_eq. intros k.
      rewrite Hl. destruct (decide _) as [Hin|Hnin]; [done|].
      rewrite lookup_empty. symmetry. apply eq_None_not_Some. by rewrite Hdom.
Qed.

Lemma filter_all {A} (f : A -> bool) (l : list A) :
  (forall x, x ∈ l -> f x = true) -> List.filter f l = l.
Proof.
  induction l as [|x l IH]; intros H; [done|]. cbn. rewrite (H x) by left.
  f_equal. apply IH. intros y Hy. apply H. by right.
Qed.

Lemma filter_none {A} (f : A -> bool) (l : list A) :
  (forall x, x ∈ l -> f x = false) -> List.filter f l = [].
Proof.
  induction l as [|x l IH]; intros H; [done|]. cbn. rewrite (H x) by left.
  apply IH. intros y Hy. apply H. by right.
Qed.

Lemma filter_replace (f : Param -> bool) (params : list Param) :
  (forall p, f (Parameter_replace_empty p) = f p) ->
  List.filter f (Parameter_replace_empty <$> params)
  = Parameter_replace_empty <$> List.filter f params.
Proof.
  intros Hf. induction params as [|p rest IH]; [done|].
  cbn. rewrite Hf. destruct (f p); cbn; by rewrite IH.
Qed.

Lemma bind_defaults_filled (pds : list (Param * option value)) l :
  (forall pd, pd ∈ pds -> is_Some (l !! name (fst pd))) -> bind_defaults pds l = Ok l.
Proof.
  induction pds as [|[p d] rest IH]; intros H; [done|].
  cbn [bind_defaults]. destruct (H (p, d)) as [v Hv]; [left|]. cbn in Hv. rewrite Hv.
  apply IH. intros pd Hpd. apply H. by right.
Qed.

Lemma lookup_zip_names_is_Some (ns : list string) (vs : list value) n :
  List.length ns = List.length vs -> n ∈ ns ->
  is_Some ((list_to_map (zip ns vs) : gmap string value) !! n).
Proof.
  intros Hl Hn. apply not_eq_None_Some. intros Hnone.
  apply not_elem_of_list_to_map_2 in Hnone. rewrite fst_zip in Hnone by lia. done.
Qed.

Lemma lookup_zip_names (ns : list string) (vs : list value) j n v :
  NoDup ns -> List.length ns = List.length vs ->
  ns !! j = Some n -> vs !! j = Some v ->
  (list_to_map (zip ns vs) : gmap string value) !! n = Some v.
Proof.
  intros Hnd Hl Hn Hv. apply elem_of_list_to_map_1.
  - rewrite fst_zip by lia. done.
  - apply list_elem_of_lookup. exists j. rewrite lookup_zip_with, Hn. cbn. by rewrite Hv.
Qed.

Lemma is_positional_replace p : is_positional (Parameter_replace_empty p) = is_positional p.
Proof. done. Qed.

(** A call with one positional argument per parameter, for a type all of
    whose parameters are positional. *)
Lemma bind_arguments_positional (params : list Param) defaults kwdefaults args :
  (forall p, p ∈ params -> is_positional p = true) ->
  List.length args = List.length params ->
  bind_arguments params defaults kwdefaults args []
  = Ok (list_to_map (zip (name <$> params) args)).
Proof.
  intros Hpos Hl. unfold bind_arguments.
  rewrite (filter_all is_positional params Hpos).
  rewrite <- Hl, drop_all.
  assert (forall k, k <> POSITIONAL_ONLY -> k <> POSITIONAL_OR_KEYWORD ->
            find_kind k params = None) as Hfind.
  { intros k H1 H2. apply find_kind_None. intros p Hp Hk. specialize (Hpos p Hp).
    unfold is_positional in Hpos. rewrite Hk in Hpos. by destruct k. }
  rewrite (Hfind VAR_POSITIONAL), (Hfind VAR_KEYWORD) by done.
  cbn [mbind result_bind bind_keywords fst snd].
  rewrite bind_defaults_filled.
  - cbn [mbind result_bind]. rewrite filter_none; [done|].
    intros p Hp. apply bool_decide_eq_false. specialize (Hpos p Hp).
    unfold is_positional in Hpos. intros Hk. by rewrite Hk in Hpos.
  - intros [p d] Hpd. apply elem_of_zip_l in Hpd. cbn.
    apply lookup_zip_names_is_Some; [by rewrite length_fmap | by apply list_elem_of_fmap_2].
Qed.

(** Property X2.  For a record type all of whose parameters are positional, a
    call with one positional argument per parameter succeeds and stores the
    j-th argument in the j-th field (reading a field gives back the argument
    of the call). *)
Theorem positional_call_fills_fields_in_order (func : function) (cls : record_type)
    (args : list value) :
  well_formed_def func = true ->
  unmangled func = true ->
  record func = Ok cls ->
  "object" ∉ name <$> func_parameters func ->
  func__name__ func <> "object" ->
  (forall p, p ∈ func_parameters func -> is_positional p = true) ->
  List.length args = List.length (func_parameters func) ->
  exists i,
    type_call cls args [] = Ok i
    /\ type_of i = cls
    /\ forall j n v,
         (name <$> func_parameters func) !! j = Some n -> args !! j = Some v ->
         slot_values i !! n = Some v.
Proof.
  intros Hwf _ H Hobj Hname Hpos Hl.
  rewrite (type_call_bound _ _ _ _ Hwf H Hobj Hname).
  rewrite bind_arguments_positional.
  - cbn [mbind result_bind]. eexists. split; [reflexivity|]. split; [done|].
    cbn [slot_values]. intros j n v Hn Hv. unfold bound_parameters. rewrite names_replace.
    apply well_formed_def_spec in Hwf as (_ & Hnd & _).
    eapply lookup_zip_names; [done | by rewrite length_fmap | done..].
  - intros p (q & -> & Hq)%list_elem_of_fmap. rewrite is_positional_replace. by apply Hpos.
  - unfold bound_parameters. by rewrite length_fmap.
Qed.

Lemma positional_call_fills_fields_in_order_witness :
  exists cls,
    record Point2D = Ok cls
    /\ exists i,
         type_call cls [VFloat 2; VFloat 3] [] = Ok i
         /\ type_of i = cls
         /\ forall j n v,
              (name <$> func_parameters Point2D) !! j = Some n ->
              [VFloat 2; VFloat 3] !! j = Some v ->
              slot_values i !! n = Some v.
Proof.
  eexists. split; [vm_compute; reflexivity|].
  refine (positional_call_fills_fields_in_order Point2D _ [VFloat 2; VFloat 3]
            eq_refl eq_refl eq_refl _ _ _ eq_refl).
  - intros H. repeat (apply elem_of_cons in H as [H|H]; [discriminate H|]). inversion H.
  - discriminate.
  - intros p Hp. repeat (apply elem_of_cons in Hp as [->|Hp]; [reflexivity|]). inversion Hp.
Defined.

(** ** Defaults *)

Lemma NoDup_names_filter (f : Param -> bool) (params : list Param) :
  NoDup (name <$> params) -> NoDup (name <$> List.filter f params).
Proof.
  induction params as [|p rest IH]; intros Hnd; [done|].
  rewrite fmap_cons in Hnd. apply NoDup_cons in Hnd as [Hp Hnd].
  cbn. destruct (f p); [|by apply IH]. rewrite fmap_cons. apply NoDup_cons. split; [|by apply IH].
  intros (q & Hq & Hin)%list_elem_of_fmap. apply Hp. rewrite Hq.
  apply list_elem_of_fmap_2. apply list_elem_of_In, filter_In in Hin as [Hin _].
  by apply list_elem_of_In.
Qed.




Lemma dict_get_kwdefaults (params : list Param) p :
  NoDup (name <$> params) -> p ∈ params -> kind p = KEYWORD_ONLY ->
  dict_get (name p)
    (omap (fun p => match kind p with
                    | KEYWORD_ONLY => pair (name p) <$> default p
                    | _ => None
                    end) params) = default p.
Proof.
  induction params as [|q rest IH]; intros Hnd Hin Hk; [inversion Hin|].
  rewrite fmap_cons in Hnd. apply NoDup_cons in Hnd as [Hq Hnd].
  assert (forall r, r ∈ rest -> name q <> name r) as Hne.
  { intros r Hr Heq. apply Hq. rewrite Heq. by apply list_elem_of_fmap_2. }
  assert (forall (l : list Param) n, (forall r, r ∈ l -> n <> name r) ->
            dict_get n (omap (fun p => match kind p with
                                       | KEYWORD_ONLY => pair (name p) <$> default p
                                       | _ => None
                                       end) l) = None) as Habs.
  { intros l n Hl. induction l as [|r l IHl]; [done|]. cbn.
    assert (dict_get n (omap (fun p => match kind p with
                                       | KEYWORD_ONLY => pair (name p) <$> default p
                                       | _ => None
                                       end) l) = None) as Hrec
      by (apply IHl; intros; apply Hl; by right).
    destruct (kind r); try done. destruct (default r); cbn; [|done].
    destruct (String.eqb_spec (name r) n) as [Heq|_]; [|done].
    by destruct (Hl r (list_elem_of_here _ _)). }
  apply elem_of_cons in Hin as [<-|Hin].
  - cbn. rewrite Hk. destruct (default p); cbn; [by rewrite String.eqb_refl|].
    by apply Habs.
  - cbn. destruct (kind q); try (by apply IH). destruct (default q); cbn; [|by apply IH].
    destruct (String.eqb_spec (name q) (name p)) as [Heq|_]; [|by apply IH].
    by destruct (Hne p Hin).
Qed.


(** ** The errors of a call *)

Lemma bind_keywords_raises params kwargs l kd e :
  bind_keywords params kwargs l kd = Raise e -> e = CallTypeError.
Proof.
  revert l kd. induction kwargs as [|[k v] rest IH]; intros l kd H; [done|].
  cbn [bind_keywords] in H. destruct (existsb _ params).
  - destruct (l !! k); [by injection H | by eapply IH].
  - destruct (find_kind VAR_KEYWORD params); [|by injection H].
    destruct (existsb _ kd); [by injection H | by eapply IH].
Qed.

Lemma bind_defaults_raises (pds : list (Param * option value)) l e :
  bind_defaults pds l = Raise e -> e = CallTypeError.
Proof.
  revert l. induction pds as [|[p d] rest IH]; intros l H; [done|].
  cbn [bind_defaults] in H. destruct (l !! name p); [by eapply IH|].
  destruct d; [by eapply IH | by injection H].
Qed.

(** The binding of the arguments raises nothing but [TypeError]. *)
Lemma bind_arguments_raises params defaults kwdefaults args kwargs e :
  bind_arguments params defaults kwdefaults args kwargs = Raise e -> e = CallTypeError.
Proof.
  unfold bind_arguments. intros H.
  destruct (match find_kind VAR_POSITIONAL params with
            | Some p => _ | None => _ end) as [l1|e1] eqn:H1.
  - cbn [mbind result_bind] in H.
    destruct (bind_keywords params kwargs l1 []) as [[l2 kd]|e2] eqn:H2.
    + cbn [mbind result_bind fst snd] in H.
      destruct (bind_defaults (zip _ _) _) as [l3|e3] eqn:H3.
      * cbn [mbind result_bind] in H. by eapply bind_defaults_raises.
      * cbn [mbind result_bind] in H. injection H as <-. by eapply bind_defaults_raises.
    + cbn [mbind result_bind] in H. injection H as <-. by eapply bind_keywords_raises.
  - cbn [mbind result_bind] in H. injection H as <-.
    destruct (find_kind VAR_POSITIONAL params); [done|].
    destruct (drop _ args); [done | by injection H1].
Qed.

Lemma exec_body_raises locals self ns e :
  exec_body locals self (setattr_statements ns) = Raise e ->
  (forall n, n ∈ ns ->
     is_Some (locals !! n) /\ n ∈ slot_descriptors (__slots__ (type_of self))) ->
  (e = CallTypeError /\ is_Some (locals !! "object"))
  \/ (e = TypeError (__name__ (type_of self)
                     ++ " object does not support attribute assignment")
      /\ __name__ (type_of self) = "object").
Proof.
  revert self. induction ns as [|n rest IH]; intros self H Hn; [done|].
  cbn [setattr_statements fmap list_fmap exec_body exec_statement] in H.
  destruct (locals !! "object") eqn:Hobj; [left; split; [by injection H | by eexists]|].
  destruct (Hn n) as [[v Hv] Hslot]; [left|]. rewrite Hv in H.
  destruct (String.eqb_spec (__name__ (type_of self)) "object") as [Heq|Hne].
  - right. cbn in H. split; [by injection H | done].
  - unfold object_setattr in H. rewrite bool_decide_eq_true_2 in H by done.
    cbn [mbind result_bind] in H. apply IH in H; [done|].
    intros m Hm. apply Hn. by right.
Qed.

Lemma bound_names func args kwargs locals :
  well_formed_def func = true ->
  bind_arguments (bound_parameters func) (func__defaults__ func)
    (func__kwdefaults__ func) args kwargs = Ok locals ->
  forall k, is_Some (locals !! k) <-> k ∈ name <$> func_parameters func.
Proof.
  intros Hwf Hbind. destruct (well_formed_def_counts _ Hwf) as [Hvp Hvk].
  pose proof (bind_arguments_names _ _ _ _ _ _
                (eq_ind_r (fun n => (n <= 1)%nat) Hvp (count_kind_replace _ _))
                (eq_ind_r (fun n => (n <= 1)%nat) Hvk (count_kind_replace _ _)) Hbind) as Hdom.
  unfold bound_parameters in Hdom. by setoid_rewrite names_replace in Hdom.
Qed.

(** Property X9.  A call of a record type that fails raises [TypeError] and
    nothing else: the statements of [__init__] name only parameters and only
    slots, so no [NameError] and no [AttributeError] comes out of it.  The
    [TypeError] of [Record.__setattr__] appears only for a type called
    [object]. *)
Theorem call_raises_only_TypeError (func : function) (cls : record_type)
    (args : list value) (kwargs : list (string * value)) (e : exn) :
  well_formed_def func = true ->
  unmangled func = true ->
  record func = Ok cls ->
  type_call cls args kwargs = Raise e ->
  e = CallTypeError
  \/ (func__name__ func = "object"
      /\ e = TypeError "object object does not support attribute assignment").
Proof.
  intros Hwf _ H. rewrite (type_call_unfold _ _ _ _ H).
  destruct (bind_arguments _ _ _ args kwargs) as [locals|e'] eqn:Hbind.
  - cbn [mbind result_bind]. pose proof (bound_names _ _ _ _ Hwf Hbind) as Hdom.
    pose proof (record_Ok_inv _ _ H) as (_ & _ & Hn & _ & _ & _ & Hslots & _).
    destruct (func_parameters func) as [|p rest] eqn:Hp; [done|].
    intros Hex. apply exec_body_raises in Hex as [[-> _] | [-> Hname]].
    + by left.
    + right. cbn [type_of] in *. rewrite Hn in Hname. by rewrite Hn, Hname.
    + intros n Hin. split; [by apply Hdom|]. cbn. by rewrite Hslots.
  - cbn [mbind result_bind]. intros [= <-]. left. by eapply bind_arguments_raises.
Qed.

Lemma call_raises_only_TypeError_witness :
  exists cls,
    record Point2D = Ok cls
    /\ type_call cls [VFloat 2] [] = Raise CallTypeError
    /\ (CallTypeError = CallTypeError
        \/ (func__name__ Point2D = "object"
            /\ CallTypeError
               = TypeError "object object does not support attribute assignment")).
Proof.
  eexists. split; [vm_compute; reflexivity|]. split; [vm_compute; reflexivity|].
  exact (call_raises_only_TypeError Point2D _ [VFloat 2] [] CallTypeError
           eq_refl eq_refl eq_refl eq_refl).
Defined.

(** Property X8.  The body of [__init__] looks the name [object] up when it
    runs.  For a record type that is itself called [object] the class
    statement has bound that name to the new type, so the stores go to
    [Record.__setattr__]: every call of such a type with at least one field
    raises [TypeError], from the binding of the arguments or with the
    message of [Record.__setattr__], whatever the arguments. *)
Theorem object_shadows_the_builtin (func : function) (cls : record_type)
    (args : list value) (kwargs : list (string * value)) :
  well_formed_def func = true ->
  unmangled func = true ->
  record func = Ok cls ->
  func_parameters func <> [] ->
  func__name__ func = "object" ->
  "object" ∉ name <$> func_parameters func ->
  type_call cls args kwargs = Raise CallTypeError
  \/ type_call cls args kwargs
     = Raise (TypeError "object object does not support attribute assignment").
Proof.
  intros Hwf _ H Hne Heq Hobj. rewrite (type_call_unfold _ _ _ _ H).
  destruct (bind_arguments _ _ _ args kwargs) as [locals|e] eqn:Hbind.
  - cbn [mbind result_bind]. pose proof (bound_names _ _ _ _ Hwf Hbind) as Hdom.
    pose proof (record_Ok_inv _ _ H) as (_ & _ & Hn & _ & _ & _ & Hslots & _).
    destruct (func_parameters func) as [|p rest] eqn:Hp; [done|].
    rewrite fmap_cons.
    cbn [setattr_statements fmap list_fmap exec_body exec_statement type_of].
    destruct (locals !! "object") eqn:Hlo.
    { destruct Hobj. apply Hdom. by eexists. }
    destruct (Hdom (name p)) as [_ [v Hv]]; [left|]. rewrite Hv.
    rewrite Hn, Heq. cbn.
    rewrite Hn, Heq. by right.
  - left. cbn [mbind result_bind]. by rewrite (bind_arguments_raises _ _ _ _ _ _ Hbind).
Qed.

(** Property X22.  A parameter called [object] shadows the built-in class in
    the body of [__init__]: the call [object.__setattr__(self, ...)] goes to
    the argument bound to that parameter.  For the arguments of this
    development, which are instances of int, float, str, tuple and dict,
    every call of a record type with a field called [object] raises
    [TypeError], so such a type cannot be instantiated with values of these
    types. *)
Theorem field_called_object_refuses_values (func : function) (cls : record_type)
    (args : list value) (kwargs : list (string * value)) :
  well_formed_def func = true ->
  unmangled func = true ->
  record func = Ok cls ->
  "object" ∈ name <$> func_parameters func ->
  type_call cls args kwargs = Raise CallTypeError.
Proof.
  intros Hwf _ H Hobj. rewrite (type_call_unfold _ _ _ _ H).
  destruct (bind_arguments _ _ _ args kwargs) as [locals|e] eqn:Hbind.
  - cbn [mbind result_bind]. pose proof (bound_names _ _ _ _ Hwf Hbind) as Hdom.
    destruct (func_parameters func) as [|p rest] eqn:Hp; [by apply elem_of_nil in Hobj|].
    rewrite fmap_cons.
    cbn [setattr_statements fmap list_fmap exec_body exec_statement type_of].
    destruct (proj2 (Hdom _) Hobj) as [x Hx]. by rewrite Hx.
  - cbn [mbind result_bind]. by rewrite (bind_arguments_raises _ _ _ _ _ _ Hbind).
Qed.

(** Property X6.  Without [*args], a call with more positional arguments than
    there are positional parameters raises [TypeError], whatever the keyword
    arguments. *)
Theorem too_many_positional_arguments (func : function) (cls : record_type)
    (args : list value) (kwargs : list (string * value)) :
  record func = Ok cls ->
  (forall p, p ∈ func_parameters func -> kind p <> VAR_POSITIONAL) ->
  (List.length (List.filter is_positional (func_parameters func)) < List.length args)%nat ->
  type_call cls args kwargs = Raise CallTypeError.
Proof.
  intros H Hvp Hlen. rewrite (type_call_unfold _ _ _ _ H).
  unfold bind_arguments, bound_parameters.
  rewrite (proj2 (find_kind_None VAR_POSITIONAL _)).
  - rewrite (filter_replace is_positional) by done. rewrite length_fmap.
    destruct (drop _ args) eqn:Hd; [|done].
    apply (f_equal List.length) in Hd. rewrite length_drop in Hd. cbn in Hd. lia.
  - intros p (q & -> & Hq)%list_elem_of_fmap. exact (Hvp q Hq).
Qed.

Lemma bind_keywords_unknown params kwargs l kd k v :
  find_kind VAR_KEYWORD params = None ->
  (k, v) ∈ kwargs ->
  (forall p, p ∈ params -> takes_keyword p = true -> name p <> k) ->
  bind_keywords params kwargs l kd = Raise CallTypeError.
Proof.
  intros Hvk Hin Hk. revert l kd.
  induction kwargs as [|[k' v'] rest IH]; intros l kd; [inversion Hin|].
  cbn [bind_keywords]. rewrite Hvk.
  destruct (existsb _ params) eqn:Hex; [|done].
  destruct (l !! k'); [done|].
  apply elem_of_cons in Hin as [[= <- <-] | Hin]; [|by apply IH].
  apply existsb_exists in Hex as (p & Hp & Hpk).
  apply andb_true_iff in Hpk as [Htk Heq]. apply String.eqb_eq in Heq.
  by destruct (Hk p (proj2 (list_elem_of_In _ _) Hp) Htk).
Qed.

Lemma takes_keyword_replace p : takes_keyword (Parameter_replace_empty p) = takes_keyword p.
Proof. done. Qed.

(** Property X7.  Without [**kwargs], a call raises [TypeError] when one of
    its keywords is not the name of a positional-or-keyword or keyword-only
    parameter; the name of a positional-only parameter is such a keyword. *)
Theorem unknown_keyword_is_rejected (func : function) (cls : record_type)
    (args : list value) (kwargs : list (string * value)) (k : string) (v : value) :
  unmangled func = true ->
  record func = Ok cls ->
  (forall p, p ∈ func_parameters func -> kind p <> VAR_KEYWORD) ->
  (k, v) ∈ kwargs ->
  (forall p, p ∈ func_parameters func -> takes_keyword p = true -> name p <> k) ->
  type_call cls args kwargs = Raise CallTypeError.
Proof.
  intros _ H Hvk Hin Hk. rewrite (type_call_unfold _ _ _ _ H).
  unfold bind_arguments.
  destruct (match find_kind VAR_POSITIONAL _ with Some p => _ | None => _ end)
    as [l1|e1] eqn:H1.
  - cbn [mbind result_bind]. rewrite (bind_keywords_unknown _ _ _ _ k v); [done | | done |].
    + apply find_kind_None. intros p (q & -> & Hq)%list_elem_of_fmap. exact (Hvk q Hq).
    + intros p (q & -> & Hq)%list_elem_of_fmap. rewrite takes_keyword_replace.
      exact (Hk q Hq).
  - cbn [mbind result_bind]. f_equal.
    destruct (find_kind VAR_POSITIONAL _); [done|].
    destruct (drop _ args); [done | by injection H1].
Qed.

Lemma object_shadows_the_builtin_witness :
  exists cls,
    record named_object = Ok cls
    /\ (type_call cls [VInt 1] [] = Raise CallTypeError
        \/ type_call cls [VInt 1] []
           = Raise (TypeError "object object does not support attribute assignment")).
Proof.
  eexists. split; [vm_compute; reflexivity|].
  refine (object_shadows_the_builtin named_object _ [VInt 1] [] eq_refl eq_refl eq_refl
            _ eq_refl _).
  - discriminate.
  - intros H. repeat (apply elem_of_cons in H as [H|H]; [discriminate H|]). inversion H.
Defined.

Lemma field_called_object_refuses_values_witness :
  exists cls,
    record takes_object = Ok cls
    /\ type_call cls [VInt 1] [] = Raise CallTypeError.
Proof.
  eexists. split; [vm_compute; reflexivity|].
  refine (field_called_object_refuses_values takes_object _ [VInt 1] []
            eq_refl eq_refl eq_refl _).
  left.
Defined.

Lemma too_many_positional_arguments_witness :
  exists cls,
    record Point2D = Ok cls
    /\ type_call cls [VFloat 1; VFloat 2; VFloat 3] [] = Raise CallTypeError.
Proof.
  eexists. split; [vm_compute; reflexivity|].
  refine (too_many_positional_arguments Point2D _ [VFloat 1; VFloat 2; VFloat 3] []
            eq_refl _ _).
  - intros p Hp. repeat (apply elem_of_cons in Hp as [->|Hp]; [discriminate|]). inversion Hp.
  - cbn. lia.
Defined.

Lemma unknown_keyword_is_rejected_witness :
  exists cls,
    record Point2D = Ok cls
    /\ type_call cls [VFloat 1; VFloat 2] [("z", VFloat 3)] = Raise CallTypeError.
Proof.
  eexists. split; [vm_compute; reflexivity|].
  refine (unknown_keyword_is_rejected Point2D _ [VFloat 1; VFloat 2] [("z", VFloat 3)]
            "z" (VFloat 3) eq_refl eq_refl _ _ _).
  - intros p Hp. repeat (apply elem_of_cons in Hp as [->|Hp]; [discriminate|]). inversion Hp.
  - left.
  - intros p Hp _. repeat (apply elem_of_cons in Hp as [->|Hp]; [discriminate|]). inversion Hp.
Defined.


Lemma names_inj (params : list Param) p q :
  NoDup (name <$> params) -> p ∈ params -> q ∈ params -> name p = name q -> p = q.
Proof.
  intros Hnd Hp Hq Heq.
  apply list_elem_of_lookup in Hp as [jp Hjp], Hq as [jq Hjq].
  assert (jp = jq) as ->; [|congruence].
  eapply (NoDup_lookup (name <$> params)); [done | |];
    rewrite list_lookup_fmap; [by rewrite Hjp | by rewrite Hjq, Heq].
Qed.

(** A parameter that [bind_defaults] passes without raising had an argument
    or has a default. *)
Lemma bind_defaults_Ok_inv (pds : list (Param * option value)) l l' :
  NoDup ((fun pd => name (fst pd)) <$> pds) ->
  bind_defaults pds l = Ok l' ->
  forall pd, pd ∈ pds -> is_Some (l !! name (fst pd)) \/ is_Some (snd pd).
Proof.
  revert l. induction pds as [|[p d] rest IH]; intros l Hnd H pd Hpd; [inversion Hpd|].
  rewrite fmap_cons in Hnd. apply NoDup_cons in Hnd as [Hp Hnd]. cbn [fst] in Hp.
  cbn [bind_defaults] in H.
  apply elem_of_cons in Hpd as [-> | Hpd].
  - cbn [fst snd]. destruct (l !! name p); [left; by eexists|].
    destruct d; [right; by eexists | done].
  - destruct (l !! name p) eqn:Hl; [by eapply IH|].
    destruct d as [v|]; [|done].
    destruct (IH _ Hnd H pd Hpd) as [Hs | Hs]; [|by right]. left.
    rewrite lookup_insert_ne in Hs; [done|].
    intros Heq. apply Hp. rewrite Heq. by apply (list_elem_of_fmap_2 (fun pd => name pd.1)).
Qed.

Lemma omap_default_length (params : list Param) p :
  p ∈ params -> default p = None ->
  (List.length (omap default params) < List.length params)%nat.
Proof.
  assert (forall l : list Param, (List.length (omap default l) <= List.length l)%nat) as Hle.
  { induction l as [|q l IH]; [done|]. cbn. destruct (default q); cbn; lia. }
  induction params as [|q rest IH]; intros Hin Hd; [inversion Hin|].
  apply elem_of_cons in Hin as [<- | Hin].
  - cbn. rewrite Hd. specialize (Hle rest). lia.
  - cbn. specialize (IH Hin Hd). destruct (default q); cbn; lia.
Qed.

(** Property X5.  A call without arguments raises [TypeError] as soon as one
    parameter that is not variadic has no default. *)
Theorem missing_argument_is_rejected (func : function) (cls : record_type) (p : Param) :
  record func = Ok cls ->
  p ∈ func_parameters func ->
  default p = None ->
  kind p <> VAR_POSITIONAL ->
  kind p <> VAR_KEYWORD ->
  type_call cls [] [] = Raise CallTypeError.
Proof.
  intros H Hp Hd Hvp Hvk. rewrite (type_call_unfold _ _ _ _ H).
  destruct (accepted_names _ _ H) as [Hnd _].
  destruct (bind_arguments _ _ _ [] []) as [locals|e] eqn:Hb;
    [exfalso | by rewrite (bind_arguments_raises _ _ _ _ _ _ Hb)].
  unfold bind_arguments, bound_parameters in Hb.
  set (params := func_parameters func) in *.
  rewrite zip_with_nil_r, drop_nil in Hb. cbn [list_to_map foldr] in Hb.
  rewrite (filter_replace is_positional) in Hb by done.
  rewrite (filter_replace (fun p => bool_decide (kind p = KEYWORD_ONLY))) in Hb by done.
  set (params' := Parameter_replace_empty <$> params) in *.
  assert (NoDup (name <$> params')) as Hnd' by (unfold params'; by rewrite names_replace).
  set (posl := List.filter is_positional params) in *.
  set (kol := List.filter (fun p => bool_decide (kind p = KEYWORD_ONLY)) params) in *.
  (* before the defaults, only the variadic parameters are bound *)
  set (l1 := match find_kind VAR_POSITIONAL params' with
             | Some q => <[name q := VTuple []]> (∅ : gmap string value)
             | None => ∅
             end).
  assert (match find_kind VAR_POSITIONAL params' with
          | Some q => Ok (<[name q := VTuple []]> (∅ : gmap string value))
          | None => Ok ∅
          end = Ok l1) as Hl1.
  { unfold l1. destruct (find_kind VAR_POSITIONAL params'); reflexivity. }
  rewrite Hl1 in Hb. cbn [mbind result_bind bind_keywords fst snd] in Hb.
  set (l3 := match find_kind VAR_KEYWORD params' with
             | Some q => <[name q := VDict []]> l1
             | None => l1
             end) in *.
  assert (forall q, q ∈ params -> kind q <> VAR_POSITIONAL -> kind q <> VAR_KEYWORD ->
            l3 !! name q = None) as Hl3.
  { intros q Hq Hqvp Hqvk.
    assert (forall k r, find_kind k params' = Some r -> kind q <> k -> name r <> name q)
      as Hother.
    { intros k r [Hr Hk]%find_kind_Some Hqk Heq.
      assert (r = Parameter_replace_empty q) as ->.
      { apply (names_inj params'); [done | done | by apply list_elem_of_fmap_2 | done]. }
      by apply Hqk. }
    assert (l1 !! name q = None) as Hq1.
    { unfold l1. destruct (find_kind VAR_POSITIONAL params') as [r|] eqn:Hr; [|done].
      rewrite lookup_insert_ne; [done|]. by eapply Hother. }
    unfold l3. destruct (find_kind VAR_KEYWORD params') as [r|] eqn:Hr; [|done].
    rewrite lookup_insert_ne; [done|]. by eapply Hother. }
  clearbody l3. clear Hl1.
  assert (match func__defaults__ func with Some ds => ds | None => [] end
          = omap default posl) as Hds.
  { unfold func__defaults__. fold params posl. by destruct (omap default posl). }
  assert (match func__kwdefaults__ func with Some ds => ds | None => [] end
          = omap (fun p => match kind p with
                           | KEYWORD_ONLY => pair (name p) <$> default p
                           | _ => None
                           end) params) as Hkwds.
  { unfold func__kwdefaults__. fold params. by destruct (omap _ params). }
  rewrite Hds, Hkwds in Hb. clear Hds Hkwds.
  set (pd := (replicate _ None ++ (Some <$> drop _ _))%list) in Hb.
  assert (List.length pd = List.length posl) as Hpdlen.
  { unfold pd. rewrite positional_defaults_length. by rewrite length_fmap. }
  destruct (bind_defaults (zip _ pd) l3) as [l4|] eqn:Hb4; [|done].
  cbn [mbind result_bind] in Hb.
  assert (forall q, q ∈ posl -> q ∈ params /\ is_positional q = true) as Hposl.
  { intros q Hq. apply list_elem_of_In, filter_In in Hq as [Hq Hk].
    split; [by apply list_elem_of_In | done]. }
  destruct (decide (kind p = KEYWORD_ONLY)) as [Hko | Hnko].
  - (* a keyword-only parameter: no entry in the keyword defaults *)
    assert (p ∈ kol) as Hpk.
    { apply list_elem_of_In, filter_In. split; [by apply list_elem_of_In|].
      by apply bool_decide_eq_true. }
    assert (l4 !! name p = None) as Hp4.
    { apply eq_None_not_Some. intros Hs.
      destruct (bind_defaults_grows _ _ _ (name <$> posl) Hb4) as [[_ Hg] _].
      - intros [q d] Hqd. apply elem_of_zip_l in Hqd. cbn.
        apply list_elem_of_fmap in Hqd as (r & -> & Hr).
        change (name r ∈ name <$> posl). by apply list_elem_of_fmap_2.
      - destruct (Hg _ Hs) as [Hs3 | Hin].
        + rewrite Hl3 in Hs3 by done. by destruct Hs3.
        + apply list_elem_of_fmap in Hin as (q & Heq & Hq).
          destruct (Hposl q Hq) as [Hqin Hqpos].
          assert (p = q) as -> by (by apply (names_inj params)).
          unfold is_positional in Hqpos. by rewrite Hko in Hqpos. }
    match type of Hb with
    | bind_defaults ?pds _ = _ =>
        assert (NoDup ((fun pd => name (fst pd)) <$> pds)) as Hnd5
    end.
    { rewrite <- !list_fmap_compose. by apply NoDup_names_filter. }
    destruct (bind_defaults_Ok_inv _ _ _ Hnd5 Hb _
                (list_elem_of_fmap_2 _ _ _ (list_elem_of_fmap_2 _ _ _ Hpk))) as [Hs | Hs];
      cbn in Hs.
    + rewrite Hp4 in Hs. by destruct Hs.
    + rewrite dict_get_kwdefaults in Hs by done. rewrite Hd in Hs. by destruct Hs.
  - (* a positional parameter: the defaults do not reach the first one *)
    assert (p ∈ posl) as Hpp.
    { apply list_elem_of_In, filter_In. split; [by apply list_elem_of_In|].
      unfold is_positional. by destruct (kind p). }
    pose proof (omap_default_length posl p Hpp Hd) as Hlt.
    destruct posl as [|q0 rest] eqn:Hposl_eq; [inversion Hpp|].
    assert (pd !! 0%nat = Some None) as Hpd0.
    { unfold pd. rewrite lookup_app_l; [apply lookup_replicate_2|];
        rewrite ?length_replicate, !length_fmap; cbn [List.length] in *; lia. }
    destruct pd as [|d0 pd']; [done|]. injection Hpd0 as ->.
    rewrite fmap_cons in Hb4. cbn [zip zip_with bind_defaults] in Hb4.
    destruct (Hposl q0 (list_elem_of_here _ _)) as [Hq0 Hq0pos].
    change (name (Parameter_replace_empty q0)) with (name q0) in Hb4.
    rewrite Hl3 in Hb4; [done | done | |]; intros Hk; unfold is_positional in Hq0pos;
      by rewrite Hk in Hq0pos.
Qed.

Lemma missing_argument_is_rejected_witness :
  exists cls,
    record Point2D = Ok cls /\ type_call cls [] [] = Raise CallTypeError.
Proof.
  eexists. split; [vm_compute; reflexivity|].
  refine (missing_argument_is_rejected Point2D _
            {| name := "y"; kind := POSITIONAL_OR_KEYWORD; default := None;
               annotation := Some (AName "float") |} eq_refl _ eq_refl _ _).
  - right. left.
  - discriminate.
  - discriminate.
Defined.

(** ** Comparing with any object *)

Lemma eq_unfold_object iter a o slots :
  ob_class_slots o = Some slots ->
  Record.__eq__ iter a o =
  if bool_decide (field_set a = list_to_set (iter_slots slots))
  then Record.eq_loop a o (iter (fields a))
  else Ok NotImplemented.
Proof.
  intros Hs. unfold Record.__eq__. rewrite Hs. fold (fields a).
  destruct (bool_decide_reflect (field_set a = list_to_set (iter_slots slots))) as [Heq|Hne].
  - rewrite bool_decide_eq_false_2; [reflexivity|].
    intros H. apply H. by apply slot_names_eq.
  - rewrite bool_decide_eq_true_2; [reflexivity|].
    intros H. apply Hne. by apply slot_names_eq.
Qed.


(** Property X10.  [__eq__] returns [NotImplemented], whatever the attributes
    of the other object, when the class of the other object has no
    [__slots__] or has slots whose set of names differs from the set of field
    names of the instance. *)
Theorem eq_other_shape_is_not_implemented (iter : list string -> list string)
    (a : instance) (o : object) :
  ob_class_slots o = None
  \/ (exists slots, ob_class_slots o = Some slots
                    /\ field_set a <> list_to_set (iter_slots slots)) ->
  Record.__eq__ iter a o = Ok NotImplemented.
Proof.
  intros [Hnone | (slots & Hs & Hne)].
  - destruct o as [s attrs]. cbn in Hnone. subst s. apply eq_no_slots.
  - rewrite (eq_unfold_object _ _ _ _ Hs). by rewrite bool_decide_eq_false_2.
Qed.

(** Property X11.  Equality is by shape, not by type: for an object of any
    class with [__slots__], [__eq__] returns [True] exactly when the set of
    slot names of that class is the set of field names of the instance and,
    under every field name, both hold a value and the two values compare
    equal.  This holds for every order in which the loop may visit the
    names. *)
Theorem eq_duck_typing (iter : list string -> list string) (a : instance) (o : object)
    (slots : slots_value) :
  iteration_order iter ->
  ob_class_slots o = Some slots ->
  Record.__eq__ iter a o = Ok PyTrue
  <-> field_set a = list_to_set (iter_slots slots)
      /\ forall f, f ∈ field_set a -> same_value a o f.
Proof.
  intros Hiter Hs. rewrite (eq_unfold_object _ _ _ _ Hs). case_bool_decide as Hset.
  - rewrite eq_loop_true. split.
    + intros H. split; [done|]. intros f Hf. apply H. by apply iter_field_set.
    + intros [_ H] f Hf. apply H. by apply iter_field_set in Hf.
  - split; [done | by intros [? _]].
Qed.


(** ** Hashing *)

Lemma py_hash_raises sh v e : py_hash sh v = Raise e -> e = UnhashableTypeError "dict".
Proof.
  revert e. induction v as [x|x|s|xs IH|d IH] using value_ind; intros e H;
    try discriminate H.
  - rewrite py_hash_tuple in H.
    destruct (hash_items sh xs) as [lanes|e'] eqn:Hh; [done|].
    cbn [mbind result_bind] in H. injection H as <-.
    revert e' Hh. induction IH as [|x xs Hx _ IHxs]; intros e' Hh; [done|].
    cbn [hash_items] in Hh. destruct (py_hash sh x) as [h|ex] eqn:Hhx.
    + cbn [mbind result_bind] in Hh. destruct (hash_items sh xs) as [hs|e''] eqn:Hhs; [done|].
      cbn [mbind result_bind] in Hh. injection Hh as <-. by apply IHxs.
    + cbn [mbind result_bind] in Hh. injection Hh as <-. by apply Hx.
  - cbn in H. by injection H.
Qed.

Lemma hash_items_dict sh xs d :
  VDict d ∈ xs -> hash_items sh xs = Raise (UnhashableTypeError "dict").
Proof.
  induction xs as [|x xs IH]; intros Hin; [inversion Hin|].
  cbn [hash_items]. destruct (py_hash sh x) as [h|e] eqn:Hx.
  - apply elem_of_cons in Hin as [<- | Hin]; [done|].
    cbn [mbind result_bind]. by rewrite IH.
  - cbn [mbind result_bind]. by rewrite (py_hash_raises _ _ _ Hx).
Qed.

Lemma bind_defaults_preserves (pds : list (Param * option value)) l l' k v :
  bind_defaults pds l = Ok l' -> l !! k = Some v -> l' !! k = Some v.
Proof.
  revert l. induction pds as [|[p d] rest IH]; intros l H Hk; cbn [bind_defaults] in H.
  - by injection H as <-.
  - destruct (l !! name p) eqn:Hp; [by eapply IH|].
    destruct d as [w|]; [|done]. eapply IH; [done|].
    rewrite lookup_insert_ne; [done|]. intros <-. congruence.
Qed.

(** The parameter [**kwargs] is bound to a dict. *)
Lemma bind_arguments_var_keyword params defaults kwdefaults args kwargs locals p :
  bind_arguments params defaults kwdefaults args kwargs = Ok locals ->
  find_kind VAR_KEYWORD params = Some p ->
  exists d, locals !! name p = Some (VDict d).
Proof.
  unfold bind_arguments. intros H Hp.
  destruct (match find_kind VAR_POSITIONAL params with
            | Some p => _ | None => _ end) as [l1|] eqn:H1; [|done].
  cbn [mbind result_bind] in H.
  destruct (bind_keywords params kwargs l1 []) as [[l2 kd]|] eqn:H2; [|done].
  cbn [mbind result_bind fst snd] in H. rewrite Hp in H.
  destruct (bind_defaults (zip _ _) _) as [l3|] eqn:H3; [|done].
  cbn [mbind result_bind] in H. exists kd.
  eapply bind_defaults_preserves; [exact H|].
  eapply bind_defaults_preserves; [exact H3|]. apply lookup_insert_eq.
Qed.

Lemma call_Ok_inv func cls args kwargs i :
  record func = Ok cls ->
  type_call cls args kwargs = Ok i ->
  type_of i = cls
  /\ exists locals,
       bind_arguments (bound_parameters func) (func__defaults__ func)
         (func__kwdefaults__ func) args kwargs = Ok locals
       /\ (forall n, n ∈ name <$> func_parameters func -> is_Some (locals !! n))
       /\ forall k, slot_values i !! k =
                    if decide (k ∈ name <$> func_parameters func)
                    then locals !! k else None.
Proof.
  intros H Hcall. rewrite (type_call_unfold _ _ _ _ H) in Hcall.
  destruct (bind_arguments _ _ _ args kwargs) as [locals|] eqn:Hbind; [|done].
  cbn [mbind result_bind] in Hcall.
  destruct (func_parameters func) as [|p rest] eqn:Hp.
  - injection Hcall as <-. split; [done|]. exists locals. split; [done|].
    split; [intros n Hn; inversion Hn | done].
  - apply exec_body_Ok in Hcall as (Ht & Hl & Hs). cbn in Ht, Hl. split; [done|].
    exists locals. split; [done|]. split; [done|].
    intros k. rewrite Hl. by rewrite lookup_empty.
Qed.

(** Property X13.  An instance of a record type with a [**kwargs] parameter
    is never hashable: its field of that name holds a dict, and [__hash__]
    raises [TypeError] (unhashable type: 'dict') for every instance that a
    call returns. *)
Theorem var_keyword_field_makes_unhashable (str_hash : string -> Z) (func : function)
    (cls : record_type) (p : Param) (args : list value)
    (kwargs : list (string * value)) (i : instance) :
  unmangled func = true ->
  record func = Ok cls ->
  p ∈ func_parameters func ->
  kind p = VAR_KEYWORD ->
  type_call cls args kwargs = Ok i ->
  Record.__hash__ str_hash i = Raise (UnhashableTypeError "dict").
Proof.
  intros _ H Hp Hk Hcall.
  destruct (call_Ok_inv _ _ _ _ _ H Hcall) as (Ht & locals & Hbind & Hall & Hl).
  pose proof (record_Ok_inv _ _ H) as (_ & _ & _ & _ & _ & _ & Hslots & _).
  destruct (find_kind_is_Some VAR_KEYWORD (bound_parameters func) (Parameter_replace_empty p))
    as [q Hq]; [by apply list_elem_of_fmap_2 | done |].
  destruct (bind_arguments_var_keyword _ _ _ _ _ _ _ Hbind Hq) as [d Hd].
  apply find_kind_Some in Hq as [(q' & -> & Hq')%list_elem_of_fmap _].
  change (name (Parameter_replace_empty q')) with (name q') in Hd.
  unfold Record.__hash__. rewrite Ht, Hslots. cbn [iter_slots].
  destruct (field_values_constructed i (name <$> func_parameters func))
    as (vs & Hvs & ->).
  { intros f Hf. rewrite Hl, decide_True by done. by apply Hall. }
  cbn [mbind result_bind]. rewrite py_hash_tuple.
  rewrite (hash_items_dict _ _ d); [done|].
  assert (name q' ∈ name <$> func_parameters func) as Hin by (by apply list_elem_of_fmap_2).
  apply list_elem_of_lookup in Hin as [j Hj].
  destruct (Forall2_lookup_l _ _ _ _ _ Hvs Hj) as (v & Hv & Hslot).
  rewrite Hl, decide_True in Hslot by (by apply list_elem_of_fmap_2).
  rewrite Hd in Hslot. injection Hslot as <-. by eapply list_elem_of_lookup_2.
Qed.

Lemma var_keyword_field_makes_unhashable_witness :
  exists cls i,
    record AllParameterTypes = Ok cls
    /\ type_call cls [VFloat 1; VInt 2] [("kw", VStr "5")] = Ok i
    /\ Record.__hash__ (fun _ => 0%Z) i = Raise (UnhashableTypeError "dict").
Proof.
  eexists _, _. split; [vm_compute; reflexivity|]. split; [vm_compute; reflexivity|].
  refine (var_keyword_field_makes_unhashable (fun _ => 0%Z) AllParameterTypes _
            {| name := "kwargs"; kind := VAR_KEYWORD; default := None;
               annotation := Some (AName "int") |}
            [VFloat 1; VInt 2] [("kw", VStr "5")] _ eq_refl eq_refl _ eq_refl eq_refl).
  do 4 right. left.
Defined.

(** Property X14.  Two instances whose types list the same fields in the same
    order, be the types the same or not, and that [__eq__] finds equal, have
    the same hash (or both fail to hash in the same way). *)
Theorem equal_with_same_field_order_hash_alike (iter : list string -> list string)
    (str_hash : string -> Z) (a b : instance) :
  iteration_order iter ->
  fields a = fields b ->
  Record.__eq__ iter a (as_object b) = Ok PyTrue ->
  Record.__hash__ str_hash a = Record.__hash__ str_hash b.
Proof.
  intros Hiter Hf Heq. apply (eq_true_iff iter Hiter) in Heq as [_ Hsame].
  destruct (field_values_same a b (fields a)) as (va & vb & Hva & Hvb & Hitems).
  { intros f Hin. apply Hsame. by apply elem_of_list_to_set. }
  unfold Record.__hash__. fold (fields a) (fields b). rewrite <- Hf, Hva, Hvb.
  cbn [mbind result_bind]. by apply py_eq_hash.
Qed.

(** ** The representation of what a call returns *)

Lemma zip_with_rendered_replace (params : list Param) vals :
  zip_with rendered_field (Parameter_replace_empty <$> params) vals
  = zip_with rendered_field params vals.
Proof.
  revert vals. induction params as [|p rest IH]; intros [|v vals]; cbn; [done..|].
  by rewrite IH.
Qed.

(** Property X15.  [__repr__] succeeds on every instance that a call returns:
    it gives the name of the decorated function followed, between
    parentheses, by one item for each of its parameters, in declared order,
    rendered from the value of the field after the kind of the parameter. *)
Theorem repr_of_a_new_instance (func : function) (cls : record_type)
    (args : list value) (kwargs : list (string * value)) (i : instance) :
  unmangled func = true ->
  record func = Ok cls ->
  type_call cls args kwargs = Ok i ->
  exists vals,
    Forall2 (fun p v => slot_values i !! name p = Some v) (func_parameters func) vals
    /\ Record.__repr__ i
       = Ok (func__name__ func ++ "("
             ++ join ", " (zip_with rendered_field (func_parameters func) vals) ++ ")").
Proof.
  intros _ H Hcall.
  destruct (call_Ok_inv _ _ _ _ _ H Hcall) as (Ht & locals & Hbind & Hall & Hl).
  pose proof (record_Ok_inv _ _ H)
    as (_ & _ & Hn & _ & _ & _ & _ & _ & _ & Hparams & _).
  destruct (repr_loop_rendered i (Parameter_replace_empty <$> func_parameters func) [])
    as (vals & Hvals & Hloop).
  { intros p' (p & -> & Hp)%list_elem_of_fmap.
    change (name (Parameter_replace_empty p)) with (name p).
    rewrite Hl, decide_True by (by apply list_elem_of_fmap_2).
    apply Hall. by apply list_elem_of_fmap_2. }
  exists vals. split.
  - apply Forall2_fmap_l in Hvals. exact Hvals.
  - unfold Record.__repr__. rewrite Ht, Hparams. cbn [tail]. rewrite Hloop.
    cbn [mbind result_bind app]. by rewrite Hn, zip_with_rendered_replace.
Qed.

Lemma repr_of_a_new_instance_witness :
  exists cls i,
    record Defaults = Ok cls
    /\ type_call cls [VInt 7] [("c", VStr "x")] = Ok i
    /\ exists vals,
         Forall2 (fun p v => slot_values i !! name p = Some v) (func_parameters Defaults) vals
         /\ Record.__repr__ i
            = Ok (func__name__ Defaults ++ "("
                  ++ join ", " (zip_with rendered_field (func_parameters Defaults) vals)
                  ++ ")").
Proof.
  eexists _, _. split; [vm_compute; reflexivity|]. split; [vm_compute; reflexivity|].
  exact (repr_of_a_new_instance Defaults _ [VInt 7] [("c", VStr "x")] _
           eq_refl eq_refl eq_refl).
Defined.

Lemma eq_other_shape_is_not_implemented_witness :
  exists cls a,
    record Point2D = Ok cls
    /\ type_call cls [VFloat 2; VFloat 3] [] = Ok a
    /\ Record.__eq__ remove_dups a no_slots_object = Ok NotImplemented.
Proof.
  eexists _, _. split; [vm_compute; reflexivity|]. split; [vm_compute; reflexivity|].
  apply (eq_other_shape_is_not_implemented remove_dups _ no_slots_object).
  left. reflexivity.
Defined.

Lemma eq_duck_typing_witness :
  exists cls a,
    record Point2D = Ok cls
    /\ type_call cls [VFloat 2; VFloat 3] [] = Ok a
    /\ (Record.__eq__ remove_dups a HasSlots_2_3 = Ok PyTrue
        <-> field_set a = list_to_set (iter_slots (SlotsTuple ["x"; "y"]))
            /\ forall f, f ∈ field_set a -> same_value a HasSlots_2_3 f).
Proof.
  eexists _, _. split; [vm_compute; reflexivity|]. split; [vm_compute; reflexivity|].
  exact (eq_duck_typing remove_dups _ HasSlots_2_3 (SlotsTuple ["x"; "y"])
           remove_dups_order eq_refl).
Defined.


Lemma equal_with_same_field_order_hash_alike_witness :
  exists cls a b,
    record Point2D = Ok cls
    /\ type_call cls [VInt 2; VInt 3] [] = Ok a
    /\ type_call cls [VFloat 2; VFloat 3] [] = Ok b
    /\ Record.__hash__ (fun _ => 0%Z) a = Record.__hash__ (fun _ => 0%Z) b.
Proof.
  eexists _, _, _. split; [vm_compute; reflexivity|]. split; [vm_compute; reflexivity|].
  split; [vm_compute; reflexivity|].
  apply (equal_with_same_field_order_hash_alike remove_dups (fun _ => 0%Z) _ _
           remove_dups_order); vm_compute; reflexivity.
Defined.

(** ** More on what [record] returns *)

(** Property X16.  The record type keeps the name, the qualified name, the
    module and the docstring of the decorated function. *)
Theorem metadata_is_preserved (func : function) (cls : record_type) :
  record func = Ok cls ->
  __name__ cls = func__name__ func
  /\ __qualname__ cls = func__qualname__ func
  /\ __module__ cls = func__module__ func
  /\ __doc__ cls = func__doc__ func.
Proof.
  intros H. pose proof (record_Ok_inv _ _ H) as (_ & _ & Hn & Hq & Hm & Hd & _). done.
Qed.

Lemma metadata_is_preserved_witness :
  exists cls,
    record AllParameterTypes = Ok cls
    /\ __name__ cls = func__name__ AllParameterTypes
    /\ __qualname__ cls = func__qualname__ AllParameterTypes
    /\ __module__ cls = func__module__ AllParameterTypes
    /\ __doc__ cls = func__doc__ AllParameterTypes.
Proof.
  eexists. split; [vm_compute; reflexivity|].
  exact (metadata_is_preserved AllParameterTypes _ eq_refl).
Defined.

Lemma validate_parameters_kinds top seen params :
  validate_parameters top seen params = Ok () -> kinds_in_order top params = true.
Proof.
  revert top seen. induction params as [|p rest IH]; intros top seen H; [done|].
  cbn [validate_parameters] in H. cbn [kinds_in_order].
  destruct (kind_value (kind p) <? kind_value top)%nat eqn:Hlt; [done|].
  case_bool_decide; [done|]. apply andb_true_iff. split; [|by eapply IH].
  apply Nat.leb_le. apply Nat.ltb_ge in Hlt. done.
Qed.

Lemma no_positional_after kinds params :
  kinds_in_order kinds params = true ->
  (2 <= kind_value kinds)%nat ->
  List.filter is_positional params = [].
Proof.
  revert kinds. induction params as [|p rest IH]; intros top Hk Htop; [done|].
  cbn [kinds_in_order] in Hk. apply andb_true_iff in Hk as [Hle Hk].
  apply Nat.leb_le in Hle. cbn [List.filter].
  assert (2 <= kind_value (kind p))%nat as Hp by lia.
  rewrite (IH _ Hk Hp). unfold is_positional. destruct (kind p); cbn in Hp; [lia | lia | done..].
Qed.

Lemma match_args_loop_positional top params acc :
  kinds_in_order top params = true ->
  match_args_loop params acc = (acc ++ (name <$> List.filter is_positional params))%list.
Proof.
  revert top acc. induction params as [|p rest IH]; intros top acc Hk.
  - cbn. by rewrite app_nil_r.
  - pose proof Hk as Hk'. cbn [kinds_in_order] in Hk. apply andb_true_iff in Hk as [_ Hk].
    cbn [match_args_loop List.filter]. unfold is_positional at 1.
    destruct (kind p) eqn:Hkp.
    1-2: rewrite (IH _ _ Hk); unfold list_append; by rewrite <- app_assoc.
    all: rewrite (no_positional_after _ _ Hk) by (try rewrite Hkp; cbn; lia);
      cbn; by rewrite app_nil_r.
Qed.

(** Property X17.  [__match_args__] of a record type lists the names of all
    the positional-only and positional-or-keyword parameters, none left out,
    and is a prefix of [__slots__]. *)
Theorem match_args_are_the_positional_fields (func : function) (cls : record_type) :
  record func = Ok cls ->
  __match_args__ cls = name <$> List.filter is_positional (func_parameters func)
  /\ exists rest, __slots__ cls = SlotsTuple (__match_args__ cls ++ rest).
Proof.
  intros H. pose proof (record_Ok_inv _ _ H)
    as (_ & Hv & _ & _ & _ & _ & Hslots & _ & Hmatch & _).
  apply validate_parameters_kinds in Hv. cbn [kinds_in_order self_parameter kind] in Hv.
  apply andb_true_iff in Hv as [_ Hv]. rewrite kinds_in_order_replace in Hv.
  split.
  - rewrite Hmatch. by rewrite (match_args_loop_positional _ _ _ Hv).
  - destruct (match_args_loop_run (func_parameters func) [])
      as (run & rest & Hp & _ & _ & Hloop).
    exists (name <$> rest). rewrite Hslots, Hmatch, Hloop, Hp. cbn [app].
    by rewrite fmap_app.
Qed.

Lemma match_args_are_the_positional_fields_witness :
  exists cls,
    record AllParameterTypes = Ok cls
    /\ __match_args__ cls
       = name <$> List.filter is_positional (func_parameters AllParameterTypes)
    /\ exists rest, __slots__ cls = SlotsTuple (__match_args__ cls ++ rest).
Proof.
  eexists. split; [vm_compute; reflexivity|].
  exact (match_args_are_the_positional_fields AllParameterTypes _ eq_refl).
Defined.

Lemma validate_parameters_duplicate top seen params n :
  kinds_in_order top params = true ->
  NoDup (name <$> params) ->
  n ∈ name <$> params ->
  n ∈ seen ->
  (forall m, m ∈ name <$> params -> m ∈ seen -> m = n) ->
  validate_parameters top seen params = Raise (ValueError_duplicate_parameter n).
Proof.
  revert top seen. induction params as [|p rest IH]; intros top seen Hk Hnd Hn Hseen Honly.
  - inversion Hn.
  - cbn [kinds_in_order] in Hk. apply andb_true_iff in Hk as [Hle Hk].
    rewrite fmap_cons in Hnd, Hn, Honly. apply NoDup_cons in Hnd as [Hp Hnd].
    cbn [validate_parameters].
    replace (kind_value (kind p) <? kind_value top)%nat with false
      by (symmetry; apply Nat.ltb_ge; by apply Nat.leb_le).
    case_bool_decide as Hin.
    + by rewrite (Honly (name p) (list_elem_of_here _ _) Hin).
    + apply IH; [done | done | | by right |].
      * apply elem_of_cons in Hn as [-> | Hn]; done.
      * intros m Hm [-> | Hms]%elem_of_cons; [done|].
        apply Honly; [by right | done].
Qed.

(** Property X18.  The outcomes of [record] on a function declared by a [def]
    statement: [TypeError] when the return annotation is neither unset nor
    [None]; otherwise [ValueError] for the duplicate parameter name [self]
    when a parameter is called [self], wherever it stands; otherwise a record
    type. *)
Theorem record_outcomes (func : function) :
  well_formed_def func = true ->
  unmangled func = true ->
  (empty_or_None (func_return func) = false ->
   record func = Raise (TypeError "return type annotation can only be 'None' or unset"))
  /\ (empty_or_None (func_return func) = true ->
      "self" ∈ name <$> func_parameters func ->
      record func = Raise (ValueError_duplicate_parameter "self"))
  /\ (empty_or_None (func_return func) = true ->
      "self" ∉ name <$> func_parameters func ->
      exists cls, record func = Ok cls).
Proof.
  intros Hwf _. apply well_formed_def_spec in Hwf as (Hk & Hnd & _).
  split; [|split].
  - intros Hret. unfold record. cbn [inspect_signature return_annotation]. by rewrite Hret.
  - intros Hret Hself. unfold record. cbn [inspect_signature return_annotation parameters].
    rewrite Hret. cbn [negb]. unfold Signature_replace. fold self_parameter.
    cbn [validate_parameters self_parameter kind name kind_value Nat.ltb Nat.leb].
    rewrite bool_decide_eq_false_2 by (by intros ?%elem_of_nil).
    rewrite (validate_parameters_duplicate _ _ _ "self"); [done | | | | |].
    + by rewrite kinds_in_order_replace.
    + by rewrite names_replace.
    + by rewrite names_replace.
    + left.
    + by intros m _ ->%list_elem_of_singleton.
  - intros Hret Hself. apply record_accepts; [done|].
    apply validate_parameters_ok.
    + cbn [kinds_in_order self_parameter kind kind_value Nat.leb andb].
      by rewrite kinds_in_order_replace.
    + rewrite fmap_cons, names_replace. apply NoDup_cons. by split.
    + intros n _ Hn. inversion Hn.
Qed.

Lemma record_outcomes_witness :
  record Node_with_self = Raise (ValueError_duplicate_parameter "self").
Proof.
  refine (proj1 (proj2 (record_outcomes Node_with_self eq_refl eq_refl)) eq_refl _).
  right. left.
Defined.

(** Property X19.  For a function without variadic parameters, the
    annotations of the record type hold the same entries as the annotations
    of the function with the entry [return] removed; the order may differ,
    the record type listing them in declared order.  The annotations of
    [__init__] are the annotations of the function with the entry [return]
    removed, followed by [return: None]. *)
Theorem annotations_without_variadics (func : function) (cls : record_type) :
  well_formed_def func = true ->
  record func = Ok cls ->
  (forall p, p ∈ func_parameters func ->
     kind p <> VAR_POSITIONAL /\ kind p <> VAR_KEYWORD) ->
  __annotations__ cls ≡ₚ dict_del "return" (func__annotations__ func)
  /\ init__annotations__ (__init__ cls)
     = (dict_del "return" (func__annotations__ func) ++ [("return", ANone)])%list.
Proof.
  intros Hwf H Hkinds. pose proof (class_annotations _ _ Hwf H) as Hann.
  split; [|by apply init_annotations].
  apply well_formed_def_spec in Hwf as (_ & Hnd & Hret).
  assert (entries field_annotation (func_parameters func)
          = entries (fun _ a => a) (func_parameters func)) as Hsame.
  { unfold entries. clear -Hkinds.
    induction (func_parameters func) as [|p rest IH]; [done|].
    cbn [omap list_omap]. rewrite IH by (intros q Hq; apply Hkinds; by right).
    destruct (Hkinds p) as [Hvp Hvk]; [left|].
    destruct (annotation p); [|done]. cbn. by destruct (kind p). }
  rewrite Hann, Hsame, proposed_annotations_eq by done.
  unfold entries. by rewrite <- of_kind_split.
Qed.

Lemma annotations_without_variadics_witness :
  exists cls,
    record positional_only_first = Ok cls
    /\ __annotations__ cls ≡ₚ dict_del "return" (func__annotations__ positional_only_first)
    /\ init__annotations__ (__init__ cls)
       = (dict_del "return" (func__annotations__ positional_only_first)
          ++ [("return", ANone)])%list.
Proof.
  eexists. split; [vm_compute; reflexivity|].
  refine (annotations_without_variadics positional_only_first _ eq_refl eq_refl _).
  intros p Hp. repeat (apply elem_of_cons in Hp as [->|Hp]; [split; discriminate|]).
  inversion Hp.
Defined.

(** ** The variadic fields *)

Lemma bind_keywords_preserves params kwargs l kd l' kd' k v :
  bind_keywords params kwargs l kd = Ok (l', kd') -> l !! k = Some v -> l' !! k = Some v.
Proof.
  revert l kd. induction kwargs as [|[k0 v0] rest IH]; intros l kd H Hk;
    cbn [bind_keywords] in H.
  - by injection H as <- <-.
  - destruct (existsb _ params).
    + destruct (l !! k0) eqn:Hk0; [done|]. eapply IH; [done|].
      rewrite lookup_insert_ne; [done|]. intros <-. congruence.
    + destruct (find_kind VAR_KEYWORD params); [|done].
      destruct (existsb _ kd); [done|]. by eapply IH.
Qed.

Lemma bind_keywords_excess params kwargs l kd l' kd' :
  bind_keywords params kwargs l kd = Ok (l', kd') ->
  kd' = (kd ++ excess_keywords params kwargs)%list.
Proof.
  revert l kd. induction kwargs as [|[k0 v0] rest IH]; intros l kd H;
    cbn [bind_keywords] in H.
  - injection H as <- <-. unfold excess_keywords. cbn. by rewrite app_nil_r.
  - unfold excess_keywords. cbn [List.filter fst]. unfold names_a_parameter at 1.
    destruct (existsb _ params); cbn [negb].
    + destruct (l !! k0); [done|]. by eapply IH.
    + destruct (find_kind VAR_KEYWORD params); [|done].
      destruct (existsb _ kd); [done|]. apply IH in H. rewrite H.
      rewrite <- app_assoc. reflexivity.
Qed.

Lemma names_a_parameter_replace (params : list Param) k :
  names_a_parameter (Parameter_replace_empty <$> params) k = names_a_parameter params k.
Proof.
  unfold names_a_parameter. induction params as [|p rest IH]; [done|].
  cbn [fmap list_fmap existsb]. by rewrite IH.
Qed.

Lemma excess_keywords_replace (params : list Param) kwargs :
  excess_keywords (Parameter_replace_empty <$> params) kwargs = excess_keywords params kwargs.
Proof.
  unfold excess_keywords. f_equal. induction kwargs as [|kv rest IH]; [done|].
  cbn [List.filter]. by rewrite names_a_parameter_replace, IH.
Qed.

(** What the binding gives to [*args] and to [**kwargs]. *)
Lemma bind_arguments_variadic params defaults kwdefaults args kwargs locals :
  NoDup (name <$> params) ->
  bind_arguments params defaults kwdefaults args kwargs = Ok locals ->
  (forall p, find_kind VAR_POSITIONAL params = Some p ->
     locals !! name p
     = Some (VTuple (drop (List.length (List.filter is_positional params)) args)))
  /\ (forall p, find_kind VAR_KEYWORD params = Some p ->
        locals !! name p = Some (VDict (excess_keywords params kwargs))).
Proof.
  unfold bind_arguments. intros Hnd H.
  destruct (match find_kind VAR_POSITIONAL params with
            | Some p => _ | None => _ end) as [l1|] eqn:H1; [|done].
  cbn [mbind result_bind] in H.
  destruct (bind_keywords params kwargs l1 []) as [[l2 kd]|] eqn:H2; [|done].
  cbn [mbind result_bind fst snd] in H.
  destruct (bind_defaults (zip _ _) _) as [l3|] eqn:H3; [|done].
  cbn [mbind result_bind] in H.
  pose proof (bind_keywords_excess _ _ _ _ _ _ H2) as Hkd. cbn [app] in Hkd. subst kd.
  split.
  - intros p Hp. rewrite Hp in H1. injection H1 as <-.
    eapply bind_defaults_preserves; [exact H|].
    eapply bind_defaults_preserves; [exact H3|].
    assert (l2 !! name p
            = Some (VTuple (drop (List.length (List.filter is_positional params)) args)))
      as Hl2.
    { eapply bind_keywords_preserves; [exact H2|]. apply lookup_insert_eq. }
    destruct (find_kind VAR_KEYWORD params) as [q|] eqn:Hq; [|done].
    rewrite lookup_insert_ne; [done|].
    apply find_kind_Some in Hp as [Hpin Hpk], Hq as [Hqin Hqk].
    intros Heq. assert (q = p) as -> by (by apply (names_inj params)). congruence.
  - intros p Hp. rewrite Hp in H3.
    eapply bind_defaults_preserves; [exact H|].
    eapply bind_defaults_preserves; [exact H3|]. apply lookup_insert_eq.
Qed.

Lemma find_kind_unique func p :
  well_formed_def func = true ->
  p ∈ func_parameters func ->
  kind p = VAR_POSITIONAL \/ kind p = VAR_KEYWORD ->
  find_kind (kind p) (bound_parameters func) = Some (Parameter_replace_empty p).
Proof.
  intros Hwf Hp Hk. destruct (well_formed_def_counts _ Hwf) as [Hvp Hvk].
  assert (Parameter_replace_empty p ∈ bound_parameters func) as Hp'
    by (by apply list_elem_of_fmap_2).
  destruct (find_kind_is_Some (kind p) (bound_parameters func) _ Hp' eq_refl) as [q Hq].
  rewrite Hq. f_equal. apply find_kind_Some in Hq as [Hqin Hqk].
  apply (count_kind_unique (kind p) (bound_parameters func)); [|done..].
  unfold bound_parameters. rewrite count_kind_replace. by destruct Hk as [-> | ->].
Qed.

(** Property X4.  In an instance that a call returns, the field of [*args]
    holds the tuple of the positional arguments beyond the positional
    parameters, and the field of [**kwargs] holds the dict of the keyword
    arguments that name no parameter, in the order of the call. *)
Theorem variadic_fields_collect_the_rest (func : function) (cls : record_type)
    (p : Param) (args : list value) (kwargs : list (string * value)) (i : instance) :
  well_formed_def func = true ->
  unmangled func = true ->
  record func = Ok cls ->
  p ∈ func_parameters func ->
  type_call cls args kwargs = Ok i ->
  (kind p = VAR_POSITIONAL ->
   slot_values i !! name p
   = Some (VTuple (drop (List.length (List.filter is_positional (func_parameters func)))
                        args)))
  /\ (kind p = VAR_KEYWORD ->
      slot_values i !! name p
      = Some (VDict (excess_keywords (func_parameters func) kwargs))).
Proof.
  intros Hwf _ H Hp Hcall.
  destruct (call_Ok_inv _ _ _ _ _ H Hcall) as (Ht & locals & Hbind & Hall & Hl).
  destruct (accepted_names _ _ H) as [Hnd _].
  apply bind_arguments_variadic in Hbind as [Hvp Hvk];
    [|unfold bound_parameters; by rewrite names_replace].
  rewrite Hl, decide_True by (by apply list_elem_of_fmap_2).
  split; intros Hk.
  - pose proof (find_kind_unique _ _ Hwf Hp (or_introl Hk)) as Hf. rewrite Hk in Hf.
    rewrite (Hvp _ Hf : locals !! name p = _).
    unfold bound_parameters. rewrite (filter_replace is_positional) by done.
    by rewrite length_fmap.
  - pose proof (find_kind_unique _ _ Hwf Hp (or_intror Hk)) as Hf. rewrite Hk in Hf.
    rewrite (Hvk _ Hf : locals !! name p = _).
    unfold bound_parameters. by rewrite excess_keywords_replace.
Qed.

Lemma variadic_fields_collect_the_rest_witness :
  exists cls i,
    record AllParameterTypes = Ok cls
    /\ type_call cls [VFloat 1; VInt 2; VInt 3; VInt 4]
         [("kw", VStr "5"); ("kwarg_1", VInt 6)] = Ok i
    /\ slot_values i !! "args" = Some (VTuple [VInt 3; VInt 4])
    /\ slot_values i !! "kwargs" = Some (VDict [(VStr "kwarg_1", VInt 6)]).
Proof.
  eexists _, _. split; [vm_compute; reflexivity|]. split; [vm_compute; reflexivity|].
  split.
  - refine (proj1 (variadic_fields_collect_the_rest AllParameterTypes _
      {| name := "args"; kind := VAR_POSITIONAL; default := None;
         annotation := Some (AName "int") |}
      [VFloat 1; VInt 2; VInt 3; VInt 4] [("kw", VStr "5"); ("kwarg_1", VInt 6)] _
      eq_refl eq_refl eq_refl _ eq_refl) eq_refl).
    do 2 right. left.
  - refine (proj2 (variadic_fields_collect_the_rest AllParameterTypes _
      {| name := "kwargs"; kind := VAR_KEYWORD; default := None;
         annotation := Some (AName "int") |}
      [VFloat 1; VInt 2; VInt 3; VInt 4] [("kw", VStr "5"); ("kwarg_1", VInt 6)] _
      eq_refl eq_refl eq_refl _ eq_refl) eq_refl).
    do 4 right. left.
Defined.

(** ** Arguments given by keyword *)

Lemma names_a_parameter_spec (params : list Param) k :
  names_a_parameter params k = true
  <-> exists p, p ∈ params /\ takes_keyword p = true /\ name p = k.
Proof.
  unfold names_a_parameter. rewrite existsb_exists. split.
  - intros (p & Hp & [Ht Hn%String.eqb_eq]%andb_true_iff).
    exists p. by rewrite <- list_elem_of_In in Hp.
  - intros (p & Hp & Ht & Hn). exists p. rewrite <- list_elem_of_In.
    split; [done|]. rewrite Ht. by apply String.eqb_eq.
Qed.

Lemma bind_keywords_duplicate params kwargs l kd k v :
  (k, v) ∈ kwargs ->
  is_Some (l !! k) ->
  names_a_parameter params k = true ->
  bind_keywords params kwargs l kd = Raise CallTypeError.
Proof.
  intros Hin Hl Hk. revert l kd Hl.
  induction kwargs as [|[k0 v0] rest IH]; intros l kd Hl; [inversion Hin|].
  cbn [bind_keywords]. fold (names_a_parameter params k0).
  destruct (names_a_parameter params k0) eqn:Hk0.
  - destruct (l !! k0) eqn:Hl0; [done|].
    apply elem_of_cons in Hin as [[= <- <-] | Hin].
    { rewrite Hl0 in Hl. by destruct Hl. }
    apply IH; [done|]. rewrite lookup_insert_is_Some. destruct (decide (k0 = k)); auto.
  - destruct (find_kind VAR_KEYWORD params); [|done].
    destruct (existsb _ kd); [done|].
    apply elem_of_cons in Hin as [[= <- <-] | Hin]; [congruence|]. by apply IH.
Qed.

Lemma lookup_zip_names_prefix (ns : list string) (vs : list value) j n :
  ns !! j = Some n -> (j < List.length vs)%nat ->
  is_Some ((list_to_map (zip ns vs) : gmap string value) !! n).
Proof.
  intros Hn Hj. apply not_eq_None_Some. intros Hnone.
  apply not_elem_of_list_to_map_2 in Hnone. apply Hnone.
  destruct (lookup_lt_is_Some_2 vs j Hj) as [v Hv].
  apply list_elem_of_fmap. exists (n, v). split; [done|].
  apply list_elem_of_lookup. exists j. rewrite lookup_zip_with, Hn. cbn. by rewrite Hv.
Qed.

(** Property X20.  A call that gives one parameter twice, by position and by
    keyword, raises [TypeError]: the keyword never replaces the positional
    argument. *)
Theorem duplicate_argument_is_rejected (func : function) (cls : record_type)
    (args : list value) (kwargs : list (string * value)) (p : Param) (j : nat)
    (v : value) :
  unmangled func = true ->
  record func = Ok cls ->
  List.filter is_positional (func_parameters func) !! j = Some p ->
  (j < List.length args)%nat ->
  kind p = POSITIONAL_OR_KEYWORD ->
  (name p, v) ∈ kwargs ->
  type_call cls args kwargs = Raise CallTypeError.
Proof.
  intros _ H Hj Hlt Hk Hin. rewrite (type_call_unfold _ _ _ _ H).
  unfold bind_arguments, bound_parameters.
  rewrite (filter_replace is_positional) by done. rewrite names_replace.
  set (posl := List.filter is_positional (func_parameters func)) in *.
  set (params' := Parameter_replace_empty <$> func_parameters func).
  assert (is_Some ((list_to_map (zip (name <$> posl) args) : gmap string value) !! name p))
    as Hbound.
  { apply (lookup_zip_names_prefix _ _ j); [|done]. by rewrite list_lookup_fmap, Hj. }
  assert (names_a_parameter params' (name p) = true) as Hnames.
  { apply names_a_parameter_spec. exists (Parameter_replace_empty p).
    split; [|split; [|done]].
    - apply list_elem_of_fmap_2. apply list_elem_of_lookup_2 in Hj.
      apply list_elem_of_In, filter_In in Hj as [Hj _]. by apply list_elem_of_In.
    - unfold takes_keyword. cbn. by rewrite Hk. }
  destruct (find_kind VAR_POSITIONAL params') as [q|].
  - cbn [mbind result_bind].
    rewrite (bind_keywords_duplicate _ _ _ _ (name p) v); [done | done | | done].
    rewrite lookup_insert_is_Some. destruct (decide (name q = name p)); auto.
  - destruct (drop _ args); [|done]. cbn [mbind result_bind].
    by rewrite (bind_keywords_duplicate _ _ _ _ (name p) v).
Qed.

Lemma duplicate_argument_is_rejected_witness :
  exists cls,
    record Point2D = Ok cls
    /\ type_call cls [VFloat 1] [("x", VFloat 2)] = Raise CallTypeError.
Proof.
  eexists. split; [vm_compute; reflexivity|].
  refine (duplicate_argument_is_rejected Point2D _ [VFloat 1] [("x", VFloat 2)]
            {| name := "x"; kind := POSITIONAL_OR_KEYWORD; default := None;
               annotation := Some (AName "float") |} 0 (VFloat 2)
            eq_refl eq_refl eq_refl _ eq_refl _).
  - cbn. lia.
  - left.
Defined.

Lemma bind_keywords_all params kwargs l kd :
  (forall kv, kv ∈ kwargs -> names_a_parameter params (fst kv) = true) ->
  NoDup (fst <$> kwargs) ->
  (forall kv, kv ∈ kwargs -> l !! fst kv = None) ->
  exists l',
    bind_keywords params kwargs l kd = Ok (l', kd)
    /\ (forall k v, (k, v) ∈ kwargs -> l' !! k = Some v)
    /\ (forall k, k ∉ fst <$> kwargs -> l' !! k = l !! k).
Proof.
  revert l. induction kwargs as [|[k0 v0] rest IH]; intros l Hn Hnd Hl.
  - exists l. split; [done|]. split; [intros k v Hin; inversion Hin | done].
  - rewrite fmap_cons in Hnd. apply NoDup_cons in Hnd as [Hk0 Hnd]. cbn [fst] in Hk0.
    cbn [bind_keywords]. fold (names_a_parameter params k0).
    pose proof (Hn (k0, v0) (list_elem_of_here _ _)) as Hn0.
    pose proof (Hl (k0, v0) (list_elem_of_here _ _)) as Hl0. cbn [fst] in Hn0, Hl0.
    rewrite Hn0, Hl0.
    destruct (IH (<[k0 := v0]> l)) as (l' & -> & Hin' & Hout').
    + intros kv Hkv. apply Hn. by right.
    + done.
    + intros kv Hkv. rewrite lookup_insert_ne; [apply Hl; by right|].
      intros ->. apply Hk0. by apply list_elem_of_fmap_2.
    + exists l'. split; [done|]. split.
      * intros k v [[= -> ->] | Hin]%elem_of_cons; [|by apply Hin'].
        rewrite Hout' by done. apply lookup_insert_eq.
      * intros k Hk. rewrite fmap_cons, not_elem_of_cons in Hk. destruct Hk as [Hne Hk].
        cbn [fst] in Hne. rewrite Hout' by done. by rewrite lookup_insert_ne.
Qed.

(** Property X21.  For a record type all of whose parameters take keywords, a
    call that gives every parameter once by keyword, in any order, succeeds
    and stores under each field name the value given for that name. *)
Theorem keyword_call_fills_fields_by_name (func : function) (cls : record_type)
    (kwargs : list (string * value)) :
  well_formed_def func = true ->
  unmangled func = true ->
  record func = Ok cls ->
  "object" ∉ name <$> func_parameters func ->
  func__name__ func <> "object" ->
  (forall p, p ∈ func_parameters func -> takes_keyword p = true) ->
  NoDup (fst <$> kwargs) ->
  (forall k, k ∈ fst <$> kwargs <-> k ∈ name <$> func_parameters func) ->
  exists i,
    type_call cls [] kwargs = Ok i
    /\ type_of i = cls
    /\ forall k v, (k, v) ∈ kwargs -> slot_values i !! k = Some v.
Proof.
  intros Hwf _ H Hobj Hname Htk Hnd Hkeys.
  rewrite (type_call_bound _ _ _ _ Hwf H Hobj Hname).
  unfold bind_arguments, bound_parameters.
  set (params := func_parameters func) in *.
  rewrite zip_with_nil_r, drop_nil. cbn [list_to_map foldr].
  assert (forall k, (forall p, p ∈ params -> kind p <> k) ->
            find_kind k (Parameter_replace_empty <$> params) = None) as Hfind.
  { intros k Hk. apply find_kind_None. intros p (q & -> & Hq)%list_elem_of_fmap.
    exact (Hk q Hq). }
  assert (forall k, k = VAR_POSITIONAL \/ k = VAR_KEYWORD ->
            forall p, p ∈ params -> kind p <> k) as Hnovar.
  { intros k Hk p Hp Hkp. specialize (Htk p Hp). unfold takes_keyword in Htk.
    rewrite Hkp in Htk. by destruct Hk as [-> | ->]. }
  rewrite (Hfind VAR_POSITIONAL) by (apply Hnovar; by left).
  rewrite (Hfind VAR_KEYWORD) by (apply Hnovar; by right).
  cbn [mbind result_bind].
  destruct (bind_keywords_all (Parameter_replace_empty <$> params) kwargs ∅ [])
    as (l' & -> & Hin' & _).
  { intros [k v] Hkv. cbn [fst]. rewrite names_a_parameter_replace.
    apply names_a_parameter_spec.
    assert (k ∈ name <$> params) as (p & -> & Hp)%list_elem_of_fmap
      by (apply Hkeys; by apply (list_elem_of_fmap_2 fst _ (k, v))).
    exists p. auto. }
  { done. }
  { intros kv _. apply lookup_empty. }
  cbn [mbind result_bind fst snd].
  assert (forall q, q ∈ params -> is_Some (l' !! name q)) as Hfilled.
  { intros q Hq.
    assert (name q ∈ fst <$> kwargs) as ([k v] & Hk & Hkv)%list_elem_of_fmap
      by (apply Hkeys; by apply list_elem_of_fmap_2).
    cbn in Hk. subst k. rewrite (Hin' _ _ Hkv). by eexists. }
  assert (forall (f : Param -> bool) q,
            q ∈ List.filter f (Parameter_replace_empty <$> params) ->
            is_Some (l' !! name q)) as Hfilled'.
  { intros f q Hq. apply list_elem_of_In, filter_In in Hq as [Hq _].
    apply list_elem_of_In, list_elem_of_fmap in Hq as (q' & -> & Hq').
    exact (Hfilled q' Hq'). }
  rewrite bind_defaults_filled.
  2: { intros [q d] Hqd. apply elem_of_zip_l in Hqd. cbn [fst].
       exact (Hfilled' _ _ Hqd). }
  cbn [mbind result_bind]. rewrite bind_defaults_filled.
  2: { intros qd (q & -> & Hq)%list_elem_of_fmap. cbn [fst].
       exact (Hfilled' _ _ Hq). }
  cbn [mbind result_bind]. eexists. split; [reflexivity|]. split; [done|]. exact Hin'.
Qed.

Lemma keyword_call_fills_fields_by_name_witness :
  exists cls,
    record Point2D = Ok cls
    /\ exists i,
         type_call cls [] [("y", VFloat 3); ("x", VFloat 2)] = Ok i
         /\ type_of i = cls
         /\ forall k v, (k, v) ∈ [("y", VFloat 3); ("x", VFloat 2)] ->
                        slot_values i !! k = Some v.
Proof.
  eexists. split; [vm_compute; reflexivity|].
  refine (keyword_call_fills_fields_by_name Point2D _ [("y", VFloat 3); ("x", VFloat 2)]
            eq_refl eq_refl eq_refl _ _ _ _ _).
  - intros H. repeat (apply elem_of_cons in H as [H|H]; [discriminate H|]). inversion H.
  - discriminate.
  - intros p Hp. repeat (apply elem_of_cons in Hp as [->|Hp]; [reflexivity|]). inversion Hp.
  - cbn. apply NoDup_cons. split; [|apply NoDup_singleton].
    by intros ?%list_elem_of_singleton.
  - intros k. cbn. rewrite !elem_of_cons, !elem_of_nil. tauto.
Defined.
